(** * Happy Parking: the parking lot, the vehicle state machine and the
      simulation clock, embedded from the JavaScript sources.

    JavaScript numbers are modelled as real numbers ([R]): rounding, NaN,
    infinities and signed zeros are outside the model.  Counters that the
    source only ever uses as loop bounds and indices are natural numbers.
    Objects that the source shares by reference are modelled with the
    sharing written out: a parking space is designated by its index in the
    lot's [spaces] array, the single material object used by every space
    mesh is one field of the lot, and the in-place vector operations of
    three.js are traced statement by statement. *)

From Stdlib Require Import Reals Lra Lia ZArith Bool List String.
From stdpp Require Import base list.

Local Open Scope R_scope.

(** ** JavaScript [Math] functions on real numbers *)

Definition Math_sign (x : R) : R :=
  if Rlt_dec 0 x then 1 else if Rlt_dec x 0 then -1 else 0.

Definition Math_abs (x : R) : R := Rabs x.
Definition Math_min (a b : R) : R := Rmin a b.
Definition Math_max (a b : R) : R := Rmax a b.

(** [Math.atan2(y, x)]: the angle of the point [(x, y)], in (-PI, PI]. *)
Definition Math_atan2 (y x : R) : R :=
  if Rlt_dec 0 x then atan (y / x)
  else if Rlt_dec x 0 then
    (if Rle_dec 0 y then atan (y / x) + PI else atan (y / x) - PI)
  else if Rlt_dec 0 y then PI / 2
  else if Rlt_dec y 0 then - (PI / 2)
  else 0.

(** [a || d] on numbers: the default is taken when the option is omitted
    or falsy (zero). *)
Definition or_default_nat (o : option nat) (d : nat) : nat :=
  match o with
  | Some (S n) => S n
  | _ => d
  end.

Definition or_default_R (o : option R) (d : R) : R :=
  match o with
  | Some r => if Req_dec_T r 0 then d else r
  | None => d
  end.

(** ** three.js vectors

    Every method below that three.js documents as changing the receiver
    in place returns the receiver's new value; the callers bind it under
    the name of the variable that holds the receiver. *)
Module THREE.

Record Vector3 : Type := mkVector3 { x : R; y : R; z : R }.

Record Quaternion : Type := mkQuaternion { qx : R; qy : R; qz : R; qw : R }.

Definition clone (v : Vector3) : Vector3 := mkVector3 (x v) (y v) (z v).

Definition copy (_this v : Vector3) : Vector3 := mkVector3 (x v) (y v) (z v).

Definition add (this v : Vector3) : Vector3 :=
  mkVector3 (x this + x v) (y this + y v) (z this + z v).

Definition sub (this v : Vector3) : Vector3 :=
  mkVector3 (x this - x v) (y this - y v) (z this - z v).

Definition multiplyScalar (this : Vector3) (s : R) : Vector3 :=
  mkVector3 (x this * s) (y this * s) (z this * s).

Definition divideScalar (this : Vector3) (s : R) : Vector3 :=
  multiplyScalar this (1 / s).

Definition length (this : Vector3) : R :=
  sqrt (x this * x this + y this * y this + z this * z this).

(** [this.divideScalar(this.length() || 1)] *)
Definition normalize (this : Vector3) : Vector3 :=
  divideScalar this (if Req_dec_T (length this) 0 then 1 else length this).

Definition distanceToSquared (this v : Vector3) : R :=
  let dx := x this - x v in
  let dy := y this - y v in
  let dz := z this - z v in
  dx * dx + dy * dy + dz * dz.

Definition distanceTo (this v : Vector3) : R :=
  sqrt (distanceToSquared this v).

Definition setFromAxisAngle (axis : Vector3) (angle : R) : Quaternion :=
  let halfAngle := angle / 2 in
  let s := sin halfAngle in
  mkQuaternion (x axis * s) (y axis * s) (z axis * s) (cos halfAngle).

Definition applyQuaternion (this : Vector3) (q : Quaternion) : Vector3 :=
  let vx := x this in
  let vy := y this in
  let vz := z this in
  let tx := 2 * (qy q * vz - qz q * vy) in
  let ty := 2 * (qz q * vx - qx q * vz) in
  let tz := 2 * (qx q * vy - qy q * vx) in
  mkVector3 (vx + qw q * tx + qy q * tz - qz q * ty)
            (vy + qw q * ty + qz q * tx - qx q * tz)
            (vz + qw q * tz + qx q * ty - qy q * tx).

Definition applyAxisAngle (this axis : Vector3) (angle : R) : Vector3 :=
  applyQuaternion this (setFromAxisAngle axis angle).

End THREE.

(** ** ParkingLot (src/js/simulation/ParkingLot.js) *)
Module ParkingLot.

Record Options : Type := mkOptions {
  opt_rows : option nat;
  opt_columns : option nat;
  opt_spaceWidth : option R;
  opt_spaceLength : option R;
  opt_aisleWidth : option R
}.

(** One entry of [this.spaces].  The [mesh] of a space is a render
    object built on the lot's single [spaceMaterial]; see [t]. *)
Record Space : Type := mkSpace {
  row : nat;
  col : nat;
  side : nat;
  position : THREE.Vector3;
  rotation : R;
  occupied : bool
}.

Record t : Type := mkLot {
  rows : nat;
  columns : nat;
  spaceWidth : R;
  spaceLength : R;
  aisleWidth : R;
  spaces : list Space;
  totalWidth : R;
  totalLength : R;
  (** colour of the one [spaceMaterial] object that createParkingSpaces
      hands to every space mesh: [space.mesh.material.color] of any
      space designates this field *)
  spaceMaterial_color : Z
}.

(** A value that can be passed where the source expects a space object:
    one of the objects stored in [this.spaces] (designated by its
    index; the array holds pairwise distinct objects and is never
    reordered), or an object that is not stored there, of which only
    [position] and [rotation] are ever read. *)
Inductive SpaceRef : Type :=
| LotSpace (i : nat)
| Detached (p : THREE.Vector3) (r : R).

(** [for (let i = 0; i < n; i++) body] *)
Definition for_range {S : Type} (n : nat) (body : nat -> S -> S) (s : S) : S :=
  fold_left (fun acc i => body i acc) (seq 0 n) s.

Definition push (l : list Space) (s : Space) : list Space := l ++ [s].

Definition createParkingSpaces (rows columns : nat)
    (spaceWidth spaceLength aisleWidth totalWidth : R)
    (spaces0 : list Space) : list Space :=
  for_range 2 (fun side spaces1 =>
    let zOffset :=
      if Nat.eqb side 0
      then - aisleWidth / 2 - spaceLength / 2
      else aisleWidth / 2 + spaceLength / 2 in
    let facingDirection := if Nat.eqb side 0 then PI else 0 in
    for_range rows (fun row spaces2 =>
      for_range columns (fun col spaces3 =>
        let xPos := (INR col * spaceWidth) - (totalWidth / 2) + (spaceWidth / 2) in
        let zPos := zOffset + (INR row * spaceLength * (if Nat.eqb side 0 then -1 else 1)) in
        push spaces3
          (mkSpace row col side (THREE.mkVector3 xPos 0 zPos) facingDirection false))
        spaces2)
      spaces1)
    spaces0.

Definition constructor (options : Options) : t :=
  let rows := or_default_nat (opt_rows options) 3 in
  let columns := or_default_nat (opt_columns options) 5 in
  let spaceWidth := or_default_R (opt_spaceWidth options) 3 in
  let spaceLength := or_default_R (opt_spaceLength options) 6 in
  let aisleWidth := or_default_R (opt_aisleWidth options) 8 in
  let totalWidth := INR columns * spaceWidth in
  let totalLength := (INR rows * spaceLength * 2) + aisleWidth in
  mkLot rows columns spaceWidth spaceLength aisleWidth
    (createParkingSpaces rows columns spaceWidth spaceLength aisleWidth totalWidth [])
    totalWidth totalLength 0x666666%Z.

Definition getTotalSpaces (lot : t) : nat := List.length (spaces lot).

(** The loop of findAvailableSpace over the remaining spaces; [i] is
    the index of the head of [l] in [this.spaces].  [closestDistance]
    is [None] while it still holds [Infinity]. *)
Fixpoint findAvailableSpace_loop (position : THREE.Vector3)
    (l : list Space) (i : nat)
    (closestSpace : option nat) (closestDistance : option R) : option nat :=
  match l with
  | [] => closestSpace
  | space :: l' =>
      if negb (occupied space) then
        let distance := THREE.distanceTo position (ParkingLot.position space) in
        if (match closestDistance with
            | None => true
            | Some c => if Rlt_dec distance c then true else false
            end)
        then findAvailableSpace_loop position l' (S i) (Some i) (Some distance)
        else findAvailableSpace_loop position l' (S i) closestSpace closestDistance
      else findAvailableSpace_loop position l' (S i) closestSpace closestDistance
  end.

(** Returns the index of the chosen space object, [None] for [null]. *)
Definition findAvailableSpace (lot : t) (position : THREE.Vector3) : option nat :=
  findAvailableSpace_loop position (spaces lot) 0 None None.

Definition set_occupied (b : bool) (s : Space) : Space :=
  mkSpace (row s) (col s) (side s) (position s) (rotation s) b.

Definition set_spaces (lot : t) (l : list Space) (c : Z) : t :=
  mkLot (rows lot) (columns lot) (spaceWidth lot) (spaceLength lot)
        (aisleWidth lot) l (totalWidth lot) (totalLength lot) c.

(** [this.spaces.includes(space)], by object identity. *)
Definition includes (lot : t) (space : SpaceRef) : bool :=
  match space with
  | LotSpace i => bool_decide (i < List.length (spaces lot))%nat
  | Detached _ _ => false
  end.

(** [space] is [None] for [null]. *)
Definition setSpaceOccupied (lot : t) (space : option SpaceRef) (isOccupied : bool) : t :=
  match space with
  | Some (LotSpace i) =>
      if includes lot (LotSpace i) then
        set_spaces lot (alter (set_occupied isOccupied) i (spaces lot))
                   (if isOccupied then 0x555555%Z else 0x666666%Z)
      else lot
  | _ => lot
  end.

End ParkingLot.


(** ** Vehicle (src/js/simulation/Vehicle.js) *)
Module Vehicle.

Inductive VehicleType : Type := car | truck.

Inductive State : Type := moving | parked | waiting.

Record Options : Type := mkOptions {
  opt_type : option VehicleType;
  opt_position : option THREE.Vector3;
  opt_rotation : option R;
  opt_color : option Z
}.

(** [mesh_position] and [mesh_rotation_y] are [this.mesh.position] and
    [this.mesh.rotation.y], the only kinematic fields [update] reads and
    writes; [position] and [rotation] keep the constructor's values.
    [color] and [direction], which only the mesh builder could read, and
    the mesh's geometry are left out. *)
Record t : Type := mkVehicle {
  type : VehicleType;
  position : THREE.Vector3;
  rotation : R;
  state : State;
  targetSpace : option ParkingLot.SpaceRef;
  waitTime : R;
  speed : R;
  maxSpeed : R;
  acceleration : R;
  turnSpeed : R;
  mesh_position : THREE.Vector3;
  mesh_rotation_y : R
}.

Definition set_state (v : t) (s : State) : t :=
  mkVehicle (type v) (position v) (rotation v) s (targetSpace v) (waitTime v)
    (speed v) (maxSpeed v) (acceleration v) (turnSpeed v)
    (mesh_position v) (mesh_rotation_y v).

Definition set_targetSpace (v : t) (r : option ParkingLot.SpaceRef) : t :=
  mkVehicle (type v) (position v) (rotation v) (state v) r (waitTime v)
    (speed v) (maxSpeed v) (acceleration v) (turnSpeed v)
    (mesh_position v) (mesh_rotation_y v).

Definition set_waitTime (v : t) (w : R) : t :=
  mkVehicle (type v) (position v) (rotation v) (state v) (targetSpace v) w
    (speed v) (maxSpeed v) (acceleration v) (turnSpeed v)
    (mesh_position v) (mesh_rotation_y v).

Definition set_speed (v : t) (s : R) : t :=
  mkVehicle (type v) (position v) (rotation v) (state v) (targetSpace v)
    (waitTime v) s (maxSpeed v) (acceleration v) (turnSpeed v)
    (mesh_position v) (mesh_rotation_y v).

Definition set_mesh_position (v : t) (p : THREE.Vector3) : t :=
  mkVehicle (type v) (position v) (rotation v) (state v) (targetSpace v)
    (waitTime v) (speed v) (maxSpeed v) (acceleration v) (turnSpeed v)
    p (mesh_rotation_y v).

Definition set_mesh_rotation_y (v : t) (r : R) : t :=
  mkVehicle (type v) (position v) (rotation v) (state v) (targetSpace v)
    (waitTime v) (speed v) (maxSpeed v) (acceleration v) (turnSpeed v)
    (mesh_position v) r.

Definition constructor (options : Options) : t :=
  let type := match opt_type options with Some ty => ty | None => car end in
  let position :=
    match opt_position options with
    | Some p => p
    | None => THREE.mkVector3 0 0 0
    end in
  let rotation := or_default_R (opt_rotation options) 0 in
  mkVehicle type position rotation moving None 0
    0 (match type with car => 5 | truck => 3 end) 2 (PI / 4)
    (THREE.copy (THREE.mkVector3 0 0 0) position) rotation.

(** What [space.position] and [space.rotation] read through a reference.
    [None] stands for a reference that designates no object, which a
    JavaScript reference cannot be. *)
Definition deref (lot : ParkingLot.t) (r : ParkingLot.SpaceRef)
    : option (THREE.Vector3 * R) :=
  match r with
  | ParkingLot.LotSpace i =>
      match ParkingLot.spaces lot !! i with
      | Some s => Some (ParkingLot.position s, ParkingLot.rotation s)
      | None => None
      end
  | ParkingLot.Detached p r => Some (p, r)
  end.

Definition findParkingSpace (v : t) (parkingLot : ParkingLot.t) : t :=
  match ParkingLot.findAvailableSpace parkingLot (mesh_position v) with
  | Some i => set_state (set_targetSpace v (Some (ParkingLot.LotSpace i))) moving
  | None => set_state v waiting
  end.

(** The exit object literal built by leaveParking. *)
Definition exitTarget : ParkingLot.SpaceRef :=
  ParkingLot.Detached (THREE.mkVector3 (-50) 0 0) 0.

Definition leaveParking (v : t) (parkingLot : ParkingLot.t) : ParkingLot.t * t :=
  match targetSpace v with
  | Some r =>
      let parkingLot := ParkingLot.setSpaceOccupied parkingLot (Some r) false in
      let v := set_targetSpace v (Some exitTarget) in
      (parkingLot, set_state v moving)
  | None => (parkingLot, v)
  end.

(** [targetPos] is a clone of the target's position.  The statement
    [targetPos.sub(this.mesh.position).normalize()] changes that clone in
    place and returns it: from then on [targetPos] and [dirToTarget] name
    one vector, the unit direction, and [distanceToTarget] is measured
    from the vehicle to that vector. *)
Definition updateMoving (v : t) (deltaTime : R) (parkingLot : ParkingLot.t)
    : ParkingLot.t * t :=
  match targetSpace v with
  | None => (parkingLot, findParkingSpace v parkingLot)
  | Some ref =>
      match deref parkingLot ref with
      | None => (parkingLot, v)
      | Some (target_position, target_rotation) =>
          let targetPos := THREE.clone target_position in
          let targetPos := THREE.normalize (THREE.sub targetPos (mesh_position v)) in
          let dirToTarget := targetPos in
          let currentDirection :=
            THREE.applyAxisAngle (THREE.mkVector3 0 0 1) (THREE.mkVector3 0 1 0)
              (mesh_rotation_y v) in
          let angleDiff :=
            Math_atan2
              (THREE.x dirToTarget * THREE.z currentDirection
               - THREE.z dirToTarget * THREE.x currentDirection)
              (THREE.x dirToTarget * THREE.x currentDirection
               + THREE.z dirToTarget * THREE.z currentDirection) in
          let turnAmount :=
            Math_min (Math_abs angleDiff) (turnSpeed v * deltaTime)
            * Math_sign angleDiff in
          let v := set_mesh_rotation_y v (mesh_rotation_y v + turnAmount) in
          let distanceToTarget := THREE.distanceTo (mesh_position v) targetPos in
          let '(parkingLot, v) :=
            if Rlt_dec distanceToTarget 1 then
              let v := set_speed v 0 in
              let v := set_state v parked in
              let v := set_mesh_position v (THREE.copy (mesh_position v) target_position) in
              let v := set_mesh_rotation_y v target_rotation in
              (ParkingLot.setSpaceOccupied parkingLot (Some ref) true, v)
            else if Rlt_dec distanceToTarget 5 then
              (parkingLot,
               set_speed v (Math_max (speed v - acceleration v * deltaTime) 0.5))
            else
              (parkingLot,
               set_speed v (Math_min (speed v + acceleration v * deltaTime) (maxSpeed v))) in
          let moveDirection :=
            THREE.applyAxisAngle (THREE.mkVector3 0 0 (-1)) (THREE.mkVector3 0 1 0)
              (mesh_rotation_y v) in
          (parkingLot,
           set_mesh_position v
             (THREE.add (mesh_position v)
                (THREE.multiplyScalar moveDirection (speed v * deltaTime))))
      end
  end.

(** [random] is the value [Math.random()] returns if this call draws
    one (only the [parked] case does). *)
Definition update (v : t) (deltaTime : R) (parkingLot : ParkingLot.t) (random : R)
    : ParkingLot.t * t :=
  match state v with
  | moving => updateMoving v deltaTime parkingLot
  | waiting =>
      let v := set_waitTime v (waitTime v + deltaTime) in
      if Rlt_dec 2 (waitTime v) then
        let v := findParkingSpace v parkingLot in
        (parkingLot, set_waitTime v 0)
      else (parkingLot, v)
  | parked =>
      if Rlt_dec random 0.001 then leaveParking v parkingLot
      else (parkingLot, v)
  end.

Definition isParked (v : t) : bool :=
  match state v with parked => true | _ => false end.

Definition isMoving (v : t) : bool :=
  match state v with moving => true | _ => false end.

Definition getWaitTime (v : t) : R :=
  match state v with waiting => waitTime v | _ => 0 end.

End Vehicle.


(** ** ParkingSimulation (src/js/simulation/ParkingSimulation.js) *)
Module ParkingSimulation.

Record VehicleData : Type := mkVehicleData {
  vd_type : option Vehicle.VehicleType;
  vd_x : R;
  vd_z : R;
  vd_rotation : R;
  vd_color : Z
}.

(** What [scenarioManager.getCurrentScenario()] hands to the simulation. *)
Record Scenario : Type := mkScenario {
  sc_parkingLot : ParkingLot.Options;
  initialVehicles : list VehicleData
}.

Record Stats : Type := mkStats {
  occupiedSpaces : nat;
  totalSpaces : nat;
  totalVehicles : nat;
  movingVehicles : nat;
  parkedVehicles : nat;
  waitingVehicles : nat;
  averageWaitTime : R
}.

Record t : Type := mkSim {
  parkingLot : ParkingLot.t;
  vehicles : list Vehicle.t;
  running : bool;
  elapsedTime : R;
  stats : Stats
}.

(** The stats object built by the constructor. *)
Definition initialStats : Stats := mkStats 0 0 0 0 0 0 0.

(** Rebuilds the lot and the vehicles from the scenario; of the stats
    only [totalSpaces] and [totalVehicles] are written. *)
Definition loadCurrentScenario (scenario : Scenario)
    (running : bool) (elapsedTime : R) (stats : Stats) : t :=
  let parkingLot := ParkingLot.constructor (sc_parkingLot scenario) in
  let vehicles :=
    map (fun vehicleData =>
           Vehicle.constructor
             (Vehicle.mkOptions (vd_type vehicleData)
                (Some (THREE.mkVector3 (vd_x vehicleData) 0 (vd_z vehicleData)))
                (Some (vd_rotation vehicleData))
                (Some (vd_color vehicleData))))
        (initialVehicles scenario) in
  mkSim parkingLot vehicles running elapsedTime
    (mkStats (occupiedSpaces stats)
       (ParkingLot.getTotalSpaces parkingLot) (List.length vehicles)
       (movingVehicles stats) (parkedVehicles stats) (waitingVehicles stats)
       (averageWaitTime stats)).

(** [new ParkingSimulation(...)] followed by [init()]. *)
Definition init (scenario : Scenario) : t :=
  loadCurrentScenario scenario true 0 initialStats.

Definition changeScenario (sim : t) (scenario : Scenario) : t :=
  loadCurrentScenario scenario (running sim) (elapsedTime sim) (stats sim).

(** [this.vehicles.forEach(vehicle => vehicle.update(deltaTime,
    this.parkingLot))]: the vehicles are updated in array order against
    the one lot.  [random k] is the draw of the vehicle at index [k]. *)
Fixpoint forEach_update (deltaTime : R) (random : nat -> R) (k : nat)
    (lot : ParkingLot.t) (vs : list Vehicle.t) : ParkingLot.t * list Vehicle.t :=
  match vs with
  | [] => (lot, [])
  | vehicle :: vs' =>
      let '(lot1, vehicle1) := Vehicle.update vehicle deltaTime lot (random k) in
      let '(lot2, vs2) := forEach_update deltaTime random (S k) lot1 vs' in
      (lot2, vehicle1 :: vs2)
  end.

(** The four accumulators of updateStats. *)
Record Tally : Type := mkTally {
  t_parked : nat;
  t_moving : nat;
  t_waiting : nat;
  t_totalWaitTime : R
}.

Definition tally_step (acc : Tally) (vehicle : Vehicle.t) : Tally :=
  let acc :=
    if Vehicle.isParked vehicle then
      mkTally (S (t_parked acc)) (t_moving acc) (t_waiting acc) (t_totalWaitTime acc)
    else if Vehicle.isMoving vehicle then
      mkTally (t_parked acc) (S (t_moving acc)) (t_waiting acc) (t_totalWaitTime acc)
    else
      mkTally (t_parked acc) (t_moving acc) (S (t_waiting acc)) (t_totalWaitTime acc) in
  mkTally (t_parked acc) (t_moving acc) (t_waiting acc)
    (t_totalWaitTime acc + Vehicle.getWaitTime vehicle).

Definition updateStats (sim : t) : t :=
  let acc := fold_left tally_step (vehicles sim) (mkTally 0 0 0 0) in
  mkSim (parkingLot sim) (vehicles sim) (running sim) (elapsedTime sim)
    (mkStats (t_parked acc)
       (totalSpaces (stats sim)) (totalVehicles (stats sim))
       (t_moving acc) (t_parked acc) (t_waiting acc)
       (if bool_decide (0 < List.length (vehicles sim))%nat
        then t_totalWaitTime acc / INR (List.length (vehicles sim))
        else 0)).

(** One tick: [deltaTime] is what [this.clock.getDelta()] returns. *)
Definition update (sim : t) (deltaTime : R) (random : nat -> R) : t :=
  let elapsedTime := elapsedTime sim + deltaTime in
  let '(lot, vs) := forEach_update deltaTime random 0 (parkingLot sim) (vehicles sim) in
  updateStats (mkSim lot vs (running sim) elapsedTime (stats sim)).

Definition toggleRunning (sim : t) : t :=
  mkSim (parkingLot sim) (vehicles sim) (negb (running sim)) (elapsedTime sim)
    (stats sim).

Definition isRunning (sim : t) : bool := running sim.

(** One frame of the host loop [animate] (src/index.js): the simulation
    is updated only while it is running. *)
Definition animate (sim : t) (deltaTime : R) (random : nat -> R) : t :=
  if isRunning sim then update sim deltaTime random else sim.

(** The states of a session: a scenario is loaded, then the host loop
    runs frames with non-negative elapsed times and arbitrary draws, and
    the user may pause, resume or load another scenario. *)
Inductive reachable : t -> Prop :=
| reach_init scenario : reachable (init scenario)
| reach_animate sim deltaTime random :
    reachable sim -> 0 <= deltaTime -> reachable (animate sim deltaTime random)
| reach_toggle sim : reachable sim -> reachable (toggleRunning sim)
| reach_change sim scenario : reachable sim -> reachable (changeScenario sim scenario).

End ParkingSimulation.


(** * Notions used in the statements *)
Section Notions.

Import ParkingLot Vehicle.

(** The part of a lot that never changes after construction: the spaces
    with their occupancy flags blanked. *)
Definition layout (lot : ParkingLot.t) : list Space :=
  map (set_occupied false) (spaces lot).

(** [space.mesh.material.color] read through space [i] of the lot.
    createParkingSpaces builds every space mesh on the one
    [spaceMaterial], so [spaces[i].mesh.material] is that object for
    every [i]; [None] when there is no space [i]. *)
Definition mesh_material_color (lot : ParkingLot.t) (i : nat) : option Z :=
  match spaces lot !! i with
  | Some _ => Some (spaceMaterial_color lot)
  | None => None
  end.

(** The occupancy flag of space [i] is set. *)
Definition flagged (lot : ParkingLot.t) (i : nat) : Prop :=
  exists s, spaces lot !! i = Some s /\ occupied s = true.

(** Distance from the query position to a space, as findAvailableSpace
    computes it. *)
Definition dist_to (query : THREE.Vector3) (s : Space) : R :=
  THREE.distanceTo query (ParkingLot.position s).

(** State of the scan of findAvailableSpace after the spaces in [pre]
    have been visited. *)
Definition closest_inv (query : THREE.Vector3) (pre : list Space)
    (closestSpace : option nat) (closestDistance : option R) : Prop :=
  match closestSpace with
  | None =>
      closestDistance = None
      /\ forall j s, pre !! j = Some s -> occupied s = true
  | Some k =>
      exists sk, pre !! k = Some sk
        /\ occupied sk = false
        /\ closestDistance = Some (dist_to query sk)
        /\ (forall j s, pre !! j = Some s -> occupied s = false ->
              dist_to query sk <= dist_to query s)
        /\ (forall j s, (j < k)%nat -> pre !! j = Some s -> occupied s = false ->
              dist_to query sk < dist_to query s)
  end.

(** *** Names for the intermediate values of updateMoving *)

(** [dirToTarget], which is also what [targetPos] holds once the
    direction has been computed. *)
Definition dirToTarget (p target_position : THREE.Vector3) : THREE.Vector3 :=
  THREE.normalize (THREE.sub (THREE.clone target_position) p).

(** [distanceToTarget] as updateMoving computes it. *)
Definition distanceToTarget (p target_position : THREE.Vector3) : R :=
  THREE.distanceTo p (dirToTarget p target_position).

Definition currentDirection (rotation_y : R) : THREE.Vector3 :=
  THREE.applyAxisAngle (THREE.mkVector3 0 0 1) (THREE.mkVector3 0 1 0) rotation_y.

Definition moveDirection (rotation_y : R) : THREE.Vector3 :=
  THREE.applyAxisAngle (THREE.mkVector3 0 0 (-1)) (THREE.mkVector3 0 1 0) rotation_y.

Definition angleDiff (p target_position : THREE.Vector3) (rotation_y : R) : R :=
  let d := dirToTarget p target_position in
  let c := currentDirection rotation_y in
  Math_atan2 (THREE.x d * THREE.z c - THREE.z d * THREE.x c)
             (THREE.x d * THREE.x c + THREE.z d * THREE.z c).

Definition turnAmount (v : Vehicle.t) (deltaTime : R)
    (target_position : THREE.Vector3) : R :=
  let a := angleDiff (mesh_position v) target_position (mesh_rotation_y v) in
  Math_min (Math_abs a) (turnSpeed v * deltaTime) * Math_sign a.

(** The vehicle after the statement [this.mesh.rotation.y += turnAmount]. *)
Definition steer (v : Vehicle.t) (deltaTime : R)
    (target_position : THREE.Vector3) : Vehicle.t :=
  set_mesh_rotation_y v (mesh_rotation_y v + turnAmount v deltaTime target_position).

(** The vehicle after the four assignments of the snap branch. *)
Definition snap (v : Vehicle.t) (target_position : THREE.Vector3)
    (target_rotation : R) : Vehicle.t :=
  set_mesh_rotation_y
    (set_mesh_position (set_state (set_speed v 0) parked)
       (THREE.copy (mesh_position v) target_position))
    target_rotation.

(** The vehicle after the closing [this.mesh.position.add(...)]. *)
Definition advance (v : Vehicle.t) (deltaTime : R) : Vehicle.t :=
  set_mesh_position v
    (THREE.add (mesh_position v)
       (THREE.multiplyScalar (moveDirection (mesh_rotation_y v))
          (speed v * deltaTime))).

(** Planar dot product (x and z), the one the angle computation uses:
    for unit vectors it is the cosine of the angle between them. *)
Definition planar_dot (u w : THREE.Vector3) : R :=
  THREE.x u * THREE.x w + THREE.z u * THREE.z w.

(** *** Vehicles *)

(** What the constructor fixes for good. *)
Definition built (v : Vehicle.t) : Prop :=
  acceleration v = 2
  /\ turnSpeed v = PI / 4
  /\ maxSpeed v = match type v with car => 5 | truck => 3 end.

(** The vehicle is parked with space [i] of the lot as its target. *)
Definition holds (v : Vehicle.t) (i : nat) : Prop :=
  state v = parked /\ targetSpace v = Some (LotSpace i).

(** Every space whose flag is set is held by some vehicle. *)
Definition holder_inv (lot : ParkingLot.t) (vs : list Vehicle.t) : Prop :=
  forall i, flagged lot i -> exists k v, vs !! k = Some v /\ holds v i.

(** The vehicle's target is an object outside the lot's [spaces] and the
    vehicle is not waiting: the situation leaveParking creates. *)
Definition departed (v : Vehicle.t) : Prop :=
  (exists p r, targetSpace v = Some (Detached p r)) /\ state v <> waiting.

(** [later v w]: [w] is [v] after any number of further updates, each
    with its own elapsed time and draw, against whatever the lot is then. *)
Inductive later (v : Vehicle.t) : Vehicle.t -> Prop :=
| later_now : later v v
| later_tick w dt lot rnd :
    later v w -> later v (snd (Vehicle.update w dt lot rnd)).

(** *** Statistics *)

Definition sum_R (l : list R) : R := fold_right Rplus 0 l.

(** Arithmetic mean of a list of numbers, 0 for the empty list. *)
Definition mean (l : list R) : R :=
  match l with
  | [] => 0
  | _ :: _ => sum_R l / INR (List.length l)
  end.

(** A vehicle's wait contribution: its wait-timer if it is waiting,
    0 otherwise. *)
Definition waitContribution (v : Vehicle.t) : R :=
  match state v with
  | waiting => waitTime v
  | _ => 0
  end.

Definition count_parked (vs : list Vehicle.t) : nat :=
  List.length (List.filter isParked vs).

(** *** Concrete lots, vehicles and scenarios *)

(** One row and one column: space 0 at (0, 0, -7) facing PI and space 1
    at (0, 0, 7) facing 0. *)
Definition lot_1x1 : ParkingLot.t :=
  ParkingLot.constructor
    (ParkingLot.mkOptions (Some 1%nat) (Some 1%nat) (Some 3) (Some 6) (Some 8)).

Definition car_at (x z rotation : R) : Vehicle.t :=
  Vehicle.constructor
    (Vehicle.mkOptions (Some car) (Some (THREE.mkVector3 x 0 z)) (Some rotation) None).

(** A vehicle that findParkingSpace has given space [i] as its target. *)
Definition heading_for (v : Vehicle.t) (i : nat) : Vehicle.t :=
  set_state (set_targetSpace v (Some (LotSpace i))) moving.

(** A car parked in space 0 of [lot_1x1], and that lot with the flag set. *)
Definition parked_car : Vehicle.t :=
  set_state (heading_for (car_at 0 (-7) PI) 0) parked.

Definition lot_1x1_taken : ParkingLot.t :=
  setSpaceOccupied lot_1x1 (Some (LotSpace 0)) true.

(** A car on its way out, half a unit short of the exit point. *)
Definition leaving_car : Vehicle.t :=
  set_state (set_targetSpace (car_at (-99 / 2) 0 0) (Some exitTarget)) moving.

(** Two cars that start next to the aisle, both nearer to space 0. *)
Definition two_cars : ParkingSimulation.Scenario :=
  ParkingSimulation.mkScenario
    (ParkingLot.mkOptions (Some 1%nat) (Some 1%nat) (Some 3) (Some 6) (Some 8))
    [ ParkingSimulation.mkVehicleData (Some car) 0 (-1) 0 0xff0000%Z;
      ParkingSimulation.mkVehicleData (Some car) 0 (-3 / 2) 0 0x0000ff%Z ].

(** Draws under which no parked vehicle leaves. *)
Definition no_draw : nat -> R := fun _ => 1.

(** The elapsed time of a frame at sixty frames a second. *)
Definition frame_time : R := 1 / 60.

Definition two_cars_after_two_frames : ParkingSimulation.t :=
  ParkingSimulation.animate
    (ParkingSimulation.animate (ParkingSimulation.init two_cars) frame_time no_draw)
    frame_time no_draw.

End Notions.

Ltac vehicle_fields :=
  cbn [heading_for Vehicle.state Vehicle.targetSpace Vehicle.waitTime Vehicle.speed
       Vehicle.maxSpeed Vehicle.acceleration Vehicle.turnSpeed Vehicle.type
       Vehicle.mesh_position Vehicle.mesh_rotation_y
       Vehicle.set_mesh_position Vehicle.set_mesh_rotation_y Vehicle.set_speed
       Vehicle.set_state Vehicle.set_targetSpace Vehicle.set_waitTime fst snd].

(** ** ScenarioManager (src/js/simulation/ScenarioManager.js) *)
Module ScenarioManager.

Record Scenario : Type := mkScenario {
  id : string;
  name : string;
  description : string;
  parkingLot : ParkingLot.Options;
  initialVehicles : list ParkingSimulation.VehicleData;
  vehicleSpawnRate : R;
  vehicleLeaveRate : R
}.

(** [scenarios] is an object literal used as a map: its own properties in
    insertion order (the order [Object.values] lists them in). *)
Record t : Type := mkManager {
  scenarios : list (string * Scenario);
  currentScenarioId : string
}.

(** What a property read [this.scenarios[key]] can yield besides
    [undefined]: an own property, or a property the object inherits
    from [Object.prototype], which is a function or object and no
    scenario. *)
Inductive Property : Type :=
| Own (s : Scenario)
| Inherited.

(** The property names every object inherits from [Object.prototype]. *)
Definition Object_prototype_has (key : string) : bool :=
  existsb (String.eqb key)
    [ "constructor"; "hasOwnProperty"; "isPrototypeOf"; "propertyIsEnumerable";
      "toLocaleString"; "toString"; "valueOf"; "__proto__";
      "__defineGetter__"; "__defineSetter__"; "__lookupGetter__";
      "__lookupSetter__" ]%string.

Fixpoint own (l : list (string * Scenario)) (key : string) : option Scenario :=
  match l with
  | [] => None
  | (k, s) :: l' => if String.eqb k key then Some s else own l' key
  end.

(** [this.scenarios[key]]; [None] is [undefined]. *)
Definition get (m : t) (key : string) : option Property :=
  match own (scenarios m) key with
  | Some s => Some (Own s)
  | None => if Object_prototype_has key then Some Inherited else None
  end.

Definition vehicle (ty : Vehicle.VehicleType) (x z rotation : R) (color : Z)
    : ParkingSimulation.VehicleData :=
  ParkingSimulation.mkVehicleData (Some ty) x z rotation color.

Definition lot (rows columns : nat) (spaceWidth spaceLength aisleWidth : R)
    : ParkingLot.Options :=
  ParkingLot.mkOptions (Some rows) (Some columns) (Some spaceWidth)
    (Some spaceLength) (Some aisleWidth).

Definition constructor : t :=
  mkManager
    [ ("default",
       mkScenario "default" "Default Scenario"
         "A standard parking lot with moderate traffic"
         (lot 4 10 3 6 8)
         [ vehicle Vehicle.car (-20) 10 0 0xff0000;
           vehicle Vehicle.car (-18) 20 (PI / 4) 0x0000ff;
           vehicle Vehicle.truck (-15) 0 (- PI / 6) 0x00ff00 ]
         0.1 0.05);
      ("rush-hour",
       mkScenario "rush-hour" "Rush Hour"
         "High traffic during peak hours"
         (lot 5 12 3 6 8)
         [ vehicle Vehicle.car (-25) 15 0 0xff0000;
           vehicle Vehicle.car (-22) 25 (PI / 4) 0x0000ff;
           vehicle Vehicle.car (-20) 5 (- PI / 6) 0x00ff00;
           vehicle Vehicle.car (-18) 10 (PI / 3) 0xffff00;
           vehicle Vehicle.truck (-15) 0 (- PI / 4) 0xff00ff ]
         0.3 0.1);
      ("weekend",
       mkScenario "weekend" "Weekend"
         "Relaxed weekend parking scenario"
         (lot 3 8 3 6 8)
         [ vehicle Vehicle.car (-15) 10 0 0xff0000;
           vehicle Vehicle.car (-12) 15 (PI / 4) 0x0000ff ]
         0.05 0.03) ]%string
    "default"%string.

(** One entry of the array getScenarioList returns. *)
Record Entry : Type := mkEntry {
  e_id : string;
  e_name : string;
  e_description : string
}.

Definition getScenarioList (m : t) : list Entry :=
  map (fun scenario => mkEntry (id scenario) (name scenario) (description scenario))
      (map snd (scenarios m)).

Definition getCurrentScenario (m : t) : option Property :=
  get m (currentScenarioId m).

Definition setCurrentScenario (m : t) (scenarioId : string) : t * bool :=
  match get m scenarioId with
  | Some _ => (mkManager (scenarios m) scenarioId, true)
  | None => (m, false)
  end.

(** [None] is [null]. *)
Definition getScenario (m : t) (scenarioId : string) : option Property :=
  get m scenarioId.

End ScenarioManager.

(** ** The simulation with the scenario manager it holds *)
Module Session.

Record t : Type := mkSession {
  scenarioManager : ScenarioManager.t;
  simulation : ParkingSimulation.t
}.

(** How a call ends: it returns, or a TypeError leaves it early; either
    way the session is what the statements executed so far made it. *)
Inductive Outcome : Type :=
| Returned (a : t)
| Threw (a : t).

Definition to_scenario (s : ScenarioManager.Scenario) : ParkingSimulation.Scenario :=
  ParkingSimulation.mkScenario (ScenarioManager.parkingLot s)
    (ScenarioManager.initialVehicles s).

(** loadCurrentScenario reading the scenario from the manager.
    [this.vehicles = []] comes first; reading [scenario.parkingLot.rows]
    throws when the current scenario is not a scenario object. *)
Definition loadCurrentScenario (a : t) : Outcome :=
  let sim := simulation a in
  let emptied :=
    ParkingSimulation.mkSim (ParkingSimulation.parkingLot sim) []
      (ParkingSimulation.running sim) (ParkingSimulation.elapsedTime sim)
      (ParkingSimulation.stats sim) in
  match ScenarioManager.getCurrentScenario (scenarioManager a) with
  | Some (ScenarioManager.Own scenario) =>
      Returned
        (mkSession (scenarioManager a)
           (ParkingSimulation.loadCurrentScenario (to_scenario scenario)
              (ParkingSimulation.running emptied)
              (ParkingSimulation.elapsedTime emptied)
              (ParkingSimulation.stats emptied)))
  | _ => Threw (mkSession (scenarioManager a) emptied)
  end.

Definition changeScenario (a : t) (scenarioId : string) : Outcome :=
  let '(m, _) := ScenarioManager.setCurrentScenario (scenarioManager a) scenarioId in
  loadCurrentScenario (mkSession m (simulation a)).

End Session.

(** * Further notions used in the statements *)
Section SessionNotions.

Import ParkingLot Vehicle.

(** No space of the lot is flagged. *)
Definition all_free (lot : ParkingLot.t) : Prop :=
  forall j s, spaces lot !! j = Some s -> occupied s = false.

(** What holds of every vehicle of a session, relative to the lot it is
    updated against. *)
Definition vehicle_ok (lot : ParkingLot.t) (v : Vehicle.t) : Prop :=
  built v
  /\ 0 <= speed v <= maxSpeed v
  /\ waitTime v = 0
  /\ state v <> waiting
  /\ match targetSpace v with
     | None =>
         state v = moving /\ speed v = 0
         /\ mesh_position v = Vehicle.position v
         /\ mesh_rotation_y v = Vehicle.rotation v
     | Some ref =>
         exists tp tr, deref lot ref = Some (tp, tr)
           /\ (state v = parked ->
               speed v = 0 /\ mesh_position v = tp /\ mesh_rotation_y v = tr)
     end.

(** A session is either fresh (nothing flagged, no vehicle has a target
    yet) or every vehicle has a target. *)
Definition session_inv (sim : ParkingSimulation.t) : Prop :=
  spaces (ParkingSimulation.parkingLot sim) <> []
  /\ Forall (vehicle_ok (ParkingSimulation.parkingLot sim)) (ParkingSimulation.vehicles sim)
  /\ ((all_free (ParkingSimulation.parkingLot sim)
       /\ Forall (fun v => targetSpace v = None) (ParkingSimulation.vehicles sim))
      \/ Forall (fun v => targetSpace v <> None) (ParkingSimulation.vehicles sim)).

End SessionNotions.

Section LayoutNotions.

Import ParkingLot.

(** The record createParkingSpaces stores for the space of the given
    side, row and column of a lot. *)
Definition space_at (lot : ParkingLot.t) (side row col : nat) : Space :=
  mkSpace row col side
    (THREE.mkVector3
       ((INR col * spaceWidth lot) - (totalWidth lot / 2) + (spaceWidth lot / 2))
       0
       ((if Nat.eqb side 0
         then - aisleWidth lot / 2 - spaceLength lot / 2
         else aisleWidth lot / 2 + spaceLength lot / 2)
        + (INR row * spaceLength lot * (if Nat.eqb side 0 then -1 else 1))))
    (if Nat.eqb side 0 then PI else 0)
    false.

(** Index in [spaces] of the space of the given side, row and column. *)
Definition space_index (lot : ParkingLot.t) (side row col : nat) : nat :=
  (side * (rows lot * columns lot) + row * columns lot + col)%nat.

End LayoutNotions.

Section OccupancyNotions.

Import ParkingLot.

(** [i] is what the scan of findAvailableSpace must return: a free space
    no farther than any free space and strictly nearer than every free
    space before it. *)
Definition nearest_free (lot : ParkingLot.t) (p : THREE.Vector3) (i : nat) : Prop :=
  exists s, spaces lot !! i = Some s
    /\ occupied s = false
    /\ (forall j s', spaces lot !! j = Some s' -> occupied s' = false ->
          dist_to p s <= dist_to p s')
    /\ (forall j s', (j < i)%nat -> spaces lot !! j = Some s' -> occupied s' = false ->
          dist_to p s < dist_to p s').

End OccupancyNotions.

Section ScenarioNotions.

Import ScenarioManager.

(** The id is the key of an own property of [scenarios]. *)
Definition known (m : ScenarioManager.t) (key : string) : bool :=
  match own (scenarios m) key with Some _ => true | None => false end.

(** A run of setCurrentScenario calls, return values dropped. *)
Definition select_all (m : ScenarioManager.t) (ids : list string) : ScenarioManager.t :=
  fold_left (fun m0 key => fst (setCurrentScenario m0 key)) ids m.

(** Every scenario is stored under its own id and no id occurs twice. *)
Definition table_ok (m : ScenarioManager.t) : Prop :=
  Forall (fun e => fst e = id (snd e)) (scenarios m)
  /\ NoDup (map fst (scenarios m)).

End ScenarioNotions.

Section SessionExamples.

Import ParkingLot Vehicle.

(** A session on the built-in table, started on its default scenario. *)
Definition default_scenario : ScenarioManager.Scenario :=
  match ScenarioManager.own (ScenarioManager.scenarios ScenarioManager.constructor)
          "default"%string with
  | Some s => s
  | None => ScenarioManager.mkScenario ""%string ""%string ""%string
              (ScenarioManager.lot 0 0 0 0 0) [] 0 0
  end.

Definition default_session : Session.t :=
  Session.mkSession ScenarioManager.constructor
    (ParkingSimulation.init (Session.to_scenario default_scenario)).

End SessionExamples.


(** * Properties *)

(** ** Real numbers and the [Math] functions *)
Section RealFacts.

Lemma sqrt_lt_bound (a c : R) : 0 <= a -> 0 < c -> a < c * c -> sqrt a < c.
Proof.
  intros Ha Hc Hlt.
  rewrite <- (sqrt_square c) by lra.
  apply sqrt_lt_1_alt. lra.
Qed.

Lemma sqrt_ge_bound (a c : R) : 0 <= c -> c * c <= a -> c <= sqrt a.
Proof.
  intros Hc Hle.
  rewrite <- (sqrt_square c) at 1 by lra.
  apply sqrt_le_1_alt. exact Hle.
Qed.

Lemma sqrt_of_square (a c : R) : 0 <= c -> a = c * c -> sqrt a = c.
Proof. intros Hc ->. apply sqrt_square. exact Hc. Qed.

Lemma sqrt_lt_inv (a c : R) : 0 <= c -> sqrt a < c -> a < c * c.
Proof.
  intros Hc H. destruct (Rlt_le_dec a (c * c)) as [Hlt | Hge]; [exact Hlt |].
  pose proof (sqrt_ge_bound a c Hc Hge). lra.
Qed.

Lemma Rabs_lt_iff (a c : R) : Rabs a < c <-> - c < a < c.
Proof.
  unfold Rabs. destruct (Rcase_abs a); split; intros; lra.
Qed.

Lemma Math_sign_0 : Math_sign 0 = 0.
Proof. unfold Math_sign. destruct (Rlt_dec 0 0); [lra | reflexivity]. Qed.

Lemma Math_sign_pos (a : R) : 0 < a -> Math_sign a = 1.
Proof. intros H. unfold Math_sign. destruct (Rlt_dec 0 a); [reflexivity | contradiction]. Qed.

Lemma Math_atan2_0_pos (x : R) : 0 < x -> Math_atan2 0 x = 0.
Proof.
  intros H. unfold Math_atan2. destruct (Rlt_dec 0 x); [| contradiction].
  unfold Rdiv. rewrite Rmult_0_l. apply atan_0.
Qed.

Lemma Math_atan2_pos_0 (y : R) : 0 < y -> Math_atan2 y 0 = PI / 2.
Proof.
  intros H. unfold Math_atan2.
  destruct (Rlt_dec 0 0); [lra |].
  destruct (Rlt_dec 0 y); [reflexivity | contradiction].
Qed.

Lemma or_default_R_nonzero (r d : R) : r <> 0 -> or_default_R (Some r) d = r.
Proof. intros H. unfold or_default_R. destruct (Req_dec_T r 0); [contradiction | reflexivity]. Qed.

Lemma or_default_R_same (r : R) : or_default_R (Some r) 0 = r.
Proof. unfold or_default_R. destruct (Req_dec_T r 0); congruence. Qed.


End RealFacts.

(** ** three.js vectors and the directions of updateMoving *)
Section VectorFacts.

Lemma applyAxisAngle_forward (a : R) :
  THREE.applyAxisAngle (THREE.mkVector3 0 0 1) (THREE.mkVector3 0 1 0) a
  = THREE.mkVector3 (sin a) 0 (cos a).
Proof.
  unfold THREE.applyAxisAngle, THREE.applyQuaternion, THREE.setFromAxisAngle.
  cbn [THREE.x THREE.y THREE.z THREE.qx THREE.qy THREE.qz THREE.qw].
  replace (sin a) with (sin (2 * (a / 2))) at 1 by (f_equal; lra).
  replace (cos a) with (cos (2 * (a / 2))) at 1 by (f_equal; lra).
  rewrite sin_2a, cos_2a_sin.
  f_equal; ring.
Qed.

Lemma applyAxisAngle_backward (a : R) :
  THREE.applyAxisAngle (THREE.mkVector3 0 0 (-1)) (THREE.mkVector3 0 1 0) a
  = THREE.mkVector3 (- sin a) 0 (- cos a).
Proof.
  unfold THREE.applyAxisAngle, THREE.applyQuaternion, THREE.setFromAxisAngle.
  cbn [THREE.x THREE.y THREE.z THREE.qx THREE.qy THREE.qz THREE.qw].
  replace (sin a) with (sin (2 * (a / 2))) at 1 by (f_equal; lra).
  replace (cos a) with (cos (2 * (a / 2))) at 1 by (f_equal; lra).
  rewrite sin_2a, cos_2a_sin.
  f_equal; ring.
Qed.

Lemma currentDirection_eq (a : R) :
  currentDirection a = THREE.mkVector3 (sin a) 0 (cos a).
Proof. apply applyAxisAngle_forward. Qed.

Lemma moveDirection_eq (a : R) :
  moveDirection a = THREE.mkVector3 (- sin a) 0 (- cos a).
Proof. apply applyAxisAngle_backward. Qed.

Lemma moveDirection_opposite (a : R) :
  moveDirection a
  = THREE.multiplyScalar (currentDirection a) (-1).
Proof.
  unfold moveDirection, currentDirection.
  rewrite applyAxisAngle_forward, applyAxisAngle_backward.
  unfold THREE.multiplyScalar. cbn [THREE.x THREE.y THREE.z].
  f_equal; ring.
Qed.

Lemma distanceTo_eq (p q : THREE.Vector3) (c : R) :
  0 <= c -> THREE.distanceToSquared p q = c * c -> THREE.distanceTo p q = c.
Proof. intros Hc H. unfold THREE.distanceTo. apply sqrt_of_square; assumption. Qed.

Lemma distanceTo_z (a b : R) :
  THREE.distanceTo (THREE.mkVector3 0 0 a) (THREE.mkVector3 0 0 b) = Rabs (a - b).
Proof.
  unfold THREE.distanceTo, THREE.distanceToSquared. cbn [THREE.x THREE.y THREE.z].
  rewrite <- sqrt_Rsqr_abs. f_equal. unfold Rsqr. ring.
Qed.

Lemma dirToTarget_eq (p tp : THREE.Vector3) (L : R) :
  0 < L ->
  THREE.distanceToSquared tp p = L * L ->
  dirToTarget p tp
  = THREE.mkVector3 ((THREE.x tp - THREE.x p) / L)
                    ((THREE.y tp - THREE.y p) / L)
                    ((THREE.z tp - THREE.z p) / L).
Proof.
  intros HL Hsq. unfold dirToTarget, THREE.normalize.
  assert (Hlen : THREE.length (THREE.sub (THREE.clone tp) p) = L).
  { unfold THREE.length. apply sqrt_of_square; [lra |].
    rewrite <- Hsq. unfold THREE.distanceToSquared, THREE.sub, THREE.clone.
    cbn [THREE.x THREE.y THREE.z]. reflexivity. }
  rewrite Hlen. destruct (Req_dec_T L 0); [lra |].
  unfold THREE.divideScalar, THREE.multiplyScalar, THREE.sub, THREE.clone.
  cbn [THREE.x THREE.y THREE.z].
  f_equal; field; lra.
Qed.

Lemma dirToTarget_z_up (a b : R) :
  a < b ->
  dirToTarget (THREE.mkVector3 0 0 a) (THREE.mkVector3 0 0 b) = THREE.mkVector3 0 0 1.
Proof.
  intros H. rewrite (dirToTarget_eq _ _ (b - a)).
  - cbn [THREE.x THREE.y THREE.z]. f_equal; field; lra.
  - lra.
  - unfold THREE.distanceToSquared. cbn [THREE.x THREE.y THREE.z]. ring.
Qed.

Lemma dirToTarget_z_down (a b : R) :
  b < a ->
  dirToTarget (THREE.mkVector3 0 0 a) (THREE.mkVector3 0 0 b) = THREE.mkVector3 0 0 (-1).
Proof.
  intros H. rewrite (dirToTarget_eq _ _ (a - b)).
  - cbn [THREE.x THREE.y THREE.z]. f_equal; field; lra.
  - lra.
  - unfold THREE.distanceToSquared. cbn [THREE.x THREE.y THREE.z]. ring.
Qed.

Lemma dirToTarget_x_right (a b z : R) :
  a < b ->
  dirToTarget (THREE.mkVector3 a 0 z) (THREE.mkVector3 b 0 z) = THREE.mkVector3 1 0 0.
Proof.
  intros H. rewrite (dirToTarget_eq _ _ (b - a)).
  - cbn [THREE.x THREE.y THREE.z]. f_equal; field; lra.
  - lra.
  - unfold THREE.distanceToSquared. cbn [THREE.x THREE.y THREE.z]. ring.
Qed.

(** Each component of the unit direction lies between -1 and 1; here the
    one along x. *)
Lemma dirToTarget_x_bound (p tp : THREE.Vector3) :
  -1 <= THREE.x (dirToTarget p tp) <= 1.
Proof.
  unfold dirToTarget, THREE.normalize, THREE.divideScalar, THREE.multiplyScalar,
    THREE.length, THREE.sub, THREE.clone.
  cbn [THREE.x THREE.y THREE.z].
  set (a := THREE.x tp - THREE.x p).
  set (b := THREE.y tp - THREE.y p).
  set (c := THREE.z tp - THREE.z p).
  assert (Hsum : 0 <= a * a + b * b + c * c) by nra.
  pose proof (sqrt_pos (a * a + b * b + c * c)) as Hpos.
  pose proof (sqrt_sqrt _ Hsum) as Hsq.
  set (L := sqrt (a * a + b * b + c * c)) in *.
  destruct (Req_dec_T L 0) as [H0 | Hn].
  - rewrite H0 in Hsq.
    assert (Ha : a = 0).
    { apply Rsqr_0_uniq. unfold Rsqr.
      pose proof (Rle_0_sqr a). pose proof (Rle_0_sqr b). pose proof (Rle_0_sqr c).
      unfold Rsqr in *. lra. }
    rewrite Ha. lra.
  - assert (HL : 0 < L) by lra.
    assert (Hq : a * (1 / L) * L = a) by (field; lra).
    set (q := a * (1 / L)) in *.
    assert (Ha : - L <= a <= L).
    { assert (Hle : Rsqr a <= Rsqr L).
      { unfold Rsqr. rewrite Hsq.
        pose proof (Rle_0_sqr b). pose proof (Rle_0_sqr c). unfold Rsqr in *. lra. }
      apply Rsqr_le_abs_0 in Hle. rewrite (Rabs_right L) in Hle by lra.
      unfold Rabs in Hle. destruct (Rcase_abs a); lra. }
    assert (Hq1 : (q - 1) * L <= 0) by lra.
    assert (Hq2 : 0 <= (q + 1) * L) by lra.
    split; nra.
Qed.

Lemma distanceToTarget_z_up (a b : R) :
  a < b ->
  distanceToTarget (THREE.mkVector3 0 0 a) (THREE.mkVector3 0 0 b) = Rabs (a - 1).
Proof.
  intros H. unfold distanceToTarget. rewrite dirToTarget_z_up by exact H.
  apply distanceTo_z.
Qed.

Lemma distanceToTarget_z_down (a b : R) :
  b < a ->
  distanceToTarget (THREE.mkVector3 0 0 a) (THREE.mkVector3 0 0 b) = Rabs (a - -1).
Proof.
  intros H. unfold distanceToTarget. rewrite dirToTarget_z_down by exact H.
  apply distanceTo_z.
Qed.

Lemma angleDiff_aligned_z (a b : R) :
  a < b -> angleDiff (THREE.mkVector3 0 0 a) (THREE.mkVector3 0 0 b) 0 = 0.
Proof.
  intros H. unfold angleDiff. rewrite dirToTarget_z_up by exact H.
  rewrite currentDirection_eq, sin_0, cos_0. cbv zeta. cbn [THREE.x THREE.z].
  replace (0 * 1 - 1 * 0) with 0 by ring.
  replace (0 * 0 + 1 * 1) with 1 by ring.
  apply Math_atan2_0_pos. lra.
Qed.

Lemma angleDiff_quarter (a b z : R) :
  a < b -> angleDiff (THREE.mkVector3 a 0 z) (THREE.mkVector3 b 0 z) 0 = PI / 2.
Proof.
  intros H. unfold angleDiff. rewrite dirToTarget_x_right by exact H.
  rewrite currentDirection_eq, sin_0, cos_0. cbv zeta. cbn [THREE.x THREE.z].
  replace (1 * 1 - 0 * 0) with 1 by ring.
  replace (1 * 0 + 0 * 1) with 0 by ring.
  apply Math_atan2_pos_0. lra.
Qed.


End VectorFacts.

(** ** The parking lot *)
Section LotFacts.

Import ParkingLot.

Lemma fold_push_length (body : nat -> list Space -> list Space) (k : nat) :
  (forall i l, List.length (body i l) = (List.length l + k)%nat) ->
  forall (ixs : list nat) (l : list Space),
    List.length (fold_left (fun acc i => body i acc) ixs l)
    = (List.length l + List.length ixs * k)%nat.
Proof.
  intros Hbody ixs. induction ixs as [|i ixs IH]; intros l; simpl.
  - lia.
  - rewrite IH, Hbody. lia.
Qed.

Lemma for_range_length (n k : nat) (body : nat -> list Space -> list Space) :
  (forall i l, List.length (body i l) = (List.length l + k)%nat) ->
  forall l, List.length (for_range n body l) = (List.length l + n * k)%nat.
Proof.
  intros Hbody l. unfold for_range.
  rewrite (fold_push_length body k Hbody), length_seq. reflexivity.
Qed.

Lemma createParkingSpaces_length (r c : nat) (w len a tw : R) (l : list Space) :
  List.length (createParkingSpaces r c w len a tw l)
  = (List.length l + 2 * (r * c))%nat.
Proof.
  unfold createParkingSpaces.
  apply for_range_length. intros side l1.
  apply for_range_length. intros row l2.
  rewrite (for_range_length c 1).
  - lia.
  - intros col l3. unfold push. rewrite length_app. simpl. lia.
Qed.

Lemma constructor_length (options : Options) :
  List.length (spaces (constructor options))
  = (2 * rows (constructor options) * columns (constructor options))%nat.
Proof.
  unfold constructor. cbn [spaces rows columns].
  rewrite createParkingSpaces_length. simpl List.length. lia.
Qed.

Lemma setSpaceOccupied_cases (lot : t) (space : option SpaceRef) (b : bool) :
  setSpaceOccupied lot space b = lot
  \/ exists i, space = Some (LotSpace i)
       /\ (i < List.length (spaces lot))%nat
       /\ setSpaceOccupied lot space b
          = set_spaces lot (alter (set_occupied b) i (spaces lot))
              (if b then 0x555555%Z else 0x666666%Z).
Proof.
  destruct space as [[i | p r] |]; cbn [setSpaceOccupied]; auto.
  unfold includes. case_bool_decide as Hi; auto.
  right. exists i. auto.
Qed.

Lemma layout_alter (lot : t) (i : nat) (b : bool) (c : Z) :
  layout (set_spaces lot (alter (set_occupied b) i (spaces lot)) c) = layout lot.
Proof.
  unfold layout. cbn [spaces set_spaces].
  apply list_eq. intros j.
  rewrite !list_lookup_fmap.
  destruct (decide (i = j)) as [-> | Hne].
  - rewrite list_lookup_alter_eq. destruct (spaces lot !! j); reflexivity.
  - rewrite list_lookup_alter_ne by assumption. reflexivity.
Qed.

Lemma setSpaceOccupied_layout (lot : t) (space : option SpaceRef) (b : bool) :
  layout (setSpaceOccupied lot space b) = layout lot.
Proof.
  destruct (setSpaceOccupied_cases lot space b) as [-> | (i & _ & _ & ->)].
  - reflexivity.
  - apply layout_alter.
Qed.

Lemma setSpaceOccupied_dims (lot : t) (space : option SpaceRef) (b : bool) :
  rows (setSpaceOccupied lot space b) = rows lot
  /\ columns (setSpaceOccupied lot space b) = columns lot.
Proof.
  destruct (setSpaceOccupied_cases lot space b) as [-> | (i & _ & _ & ->)];
    split; reflexivity.
Qed.

Lemma layout_length (lot lot' : t) :
  layout lot' = layout lot -> List.length (spaces lot') = List.length (spaces lot).
Proof.
  unfold layout. intros H.
  apply (f_equal (@List.length Space)) in H.
  rewrite !length_map in H. exact H.
Qed.

Lemma flagged_set_true (lot : ParkingLot.t) (space : option SpaceRef) (i : nat) :
  flagged (setSpaceOccupied lot space true) i ->
  space = Some (LotSpace i) \/ flagged lot i.
Proof.
  destruct (setSpaceOccupied_cases lot space true) as [-> | (j & -> & Hj & ->)]; [auto |].
  intros (s & Hs & Hocc). cbn [spaces set_spaces] in Hs.
  destruct (decide (j = i)) as [-> | Hne]; [auto |].
  right. rewrite list_lookup_alter_ne in Hs by assumption. exists s. auto.
Qed.

Lemma flagged_set_false (lot : ParkingLot.t) (space : option SpaceRef) (i : nat) :
  flagged (setSpaceOccupied lot space false) i ->
  flagged lot i /\ space <> Some (LotSpace i).
Proof.
  destruct (setSpaceOccupied_cases lot space false) as [Heq | (j & -> & Hj & ->)].
  - rewrite Heq. intros Hf. split; [exact Hf |].
    intros ->. destruct Hf as (s & Hs & Hocc).
    cbn [setSpaceOccupied includes] in Heq.
    rewrite bool_decide_eq_true_2 in Heq by (eapply lookup_lt_Some; eassumption).
    apply (f_equal (fun l => spaces l !! i)) in Heq.
    cbn [spaces set_spaces] in Heq.
    rewrite list_lookup_alter_eq, Hs in Heq. cbn in Heq.
    injection Heq as Heq. rewrite <- Heq in Hocc. discriminate.
  - intros (s & Hs & Hocc). cbn [spaces set_spaces] in Hs.
    destruct (decide (j = i)) as [-> | Hne].
    + rewrite list_lookup_alter_eq in Hs.
      destruct (spaces lot !! i); cbn in Hs; [| discriminate].
      injection Hs as <-. discriminate.
    + rewrite list_lookup_alter_ne in Hs by assumption.
      split; [exists s; auto | congruence].
Qed.

Lemma flagged_after_set (lot : ParkingLot.t) (i : nat) :
  (i < List.length (spaces lot))%nat ->
  flagged (setSpaceOccupied lot (Some (LotSpace i)) true) i.
Proof.
  intros Hi. unfold flagged. cbn [setSpaceOccupied includes].
  rewrite bool_decide_eq_true_2 by exact Hi.
  cbn [spaces set_spaces]. rewrite list_lookup_alter_eq.
  destruct (lookup_lt_is_Some_2 _ _ Hi) as [s ->].
  eexists. split; reflexivity.
Qed.

Lemma createParkingSpaces_free (r c : nat) (w len a tw : R) (l : list Space) :
  Forall (fun s => occupied s = false) l ->
  Forall (fun s => occupied s = false) (createParkingSpaces r c w len a tw l).
Proof.
  assert (Hfold : forall (body : nat -> list Space -> list Space),
             (forall i l0, Forall (fun s => occupied s = false) l0 ->
                           Forall (fun s => occupied s = false) (body i l0)) ->
             forall n l0, Forall (fun s => occupied s = false) l0 ->
                          Forall (fun s => occupied s = false) (for_range n body l0)).
  { intros body Hbody n. unfold for_range. generalize (seq 0 n) as ixs.
    induction ixs as [| i ixs IH]; intros l0 Hl0; cbn [fold_left]; auto. }
  intros Hl. unfold createParkingSpaces.
  apply Hfold; [| exact Hl]. intros side l1 Hl1.
  apply Hfold; [| exact Hl1]. intros row l2 Hl2.
  apply Hfold; [| exact Hl2]. intros col l3 Hl3.
  unfold push. apply Forall_app. split; [exact Hl3 |].
  apply Forall_cons. split; [reflexivity | apply Forall_nil_2].
Qed.

Lemma constructor_not_flagged (options : ParkingLot.Options) (i : nat) :
  ~ flagged (ParkingLot.constructor options) i.
Proof.
  intros (s & Hs & Hocc).
  pose proof (createParkingSpaces_free
                (rows (ParkingLot.constructor options))
                (columns (ParkingLot.constructor options))
                (spaceWidth (ParkingLot.constructor options))
                (spaceLength (ParkingLot.constructor options))
                (aisleWidth (ParkingLot.constructor options))
                (totalWidth (ParkingLot.constructor options))
                [] (Forall_nil_2 _)) as Hfree.
  rewrite Forall_lookup in Hfree.
  specialize (Hfree i s Hs). cbv beta in Hfree. congruence.
Qed.

Lemma lot_1x1_spaces :
  spaces lot_1x1
  = [ mkSpace 0 0 0 (THREE.mkVector3 0 0 (-7)) PI false;
      mkSpace 0 0 1 (THREE.mkVector3 0 0 7) 0 false ].
Proof.
  unfold lot_1x1, ParkingLot.constructor.
  cbn [opt_rows opt_columns opt_spaceWidth opt_spaceLength opt_aisleWidth or_default_nat spaces].
  rewrite !or_default_R_nonzero by lra.
  unfold createParkingSpaces, for_range, push.
  cbn [seq fold_left app Nat.eqb INR].
  repeat f_equal; lra.
Qed.


End LotFacts.

(** ** findAvailableSpace: the scan and its loop invariant *)
Section NearestScan.

Import ParkingLot.

Variable query : THREE.Vector3.

Lemma closest_inv_step (pre : list Space) (s : Space)
    (cs : option nat) (cd : option R) :
  closest_inv query pre cs cd ->
  exists cs' cd',
    closest_inv query (pre ++ [s]) cs' cd'
    /\ forall l,
         findAvailableSpace_loop query (s :: l) (List.length pre) cs cd
         = findAvailableSpace_loop query l (S (List.length pre)) cs' cd'.
Proof.
  intros Hinv.
  cbn [findAvailableSpace_loop].
  destruct (occupied s) eqn:Hocc; cbn [negb].
  - (* occupied: skipped *)
    exists cs, cd. split; [| reflexivity].
    destruct cs as [k |]; cbn [closest_inv] in *.
    + destruct Hinv as (sk & Hk & Hfree & Hcd & Hmin & Hfirst).
      exists sk. repeat split; auto.
      * rewrite lookup_app_l; [assumption | eapply lookup_lt_Some; eassumption].
      * intros j s' Hj Hs'. apply lookup_snoc_Some in Hj as [[_ Hj] | [_ <-]]; [eauto | congruence].
      * intros j s' Hlt Hj Hs'. apply lookup_snoc_Some in Hj as [[_ Hj] | [_ <-]]; [eauto | congruence].
    + destruct Hinv as [Hcd Hall]. split; [assumption |].
      intros j s' Hj. apply lookup_snoc_Some in Hj as [[_ Hj] | [_ <-]]; [eauto | assumption].
  - (* free *)
    fold (dist_to query s).
    destruct cs as [k |]; cbn [closest_inv] in Hinv.
    + destruct Hinv as (sk & Hk & Hfree & -> & Hmin & Hfirst).
      destruct (Rlt_dec (dist_to query s) (dist_to query sk)) as [Hlt | Hge].
      * exists (Some (List.length pre)), (Some (dist_to query s)).
        split; [| reflexivity]. cbn [closest_inv].
        exists s. repeat split; auto.
        -- apply list_lookup_middle. reflexivity.
        -- intros j s' Hj Hs'. apply lookup_snoc_Some in Hj as [[_ Hj] | [_ <-]].
           ++ specialize (Hmin j s' Hj Hs'). lra.
           ++ lra.
        -- intros j s' Hjlt Hj Hs'. apply lookup_snoc_Some in Hj as [[_ Hj] | [Hj _]].
           ++ specialize (Hmin j s' Hj Hs'). lra.
           ++ lia.
      * exists (Some k), (Some (dist_to query sk)).
        split; [| reflexivity]. cbn [closest_inv].
        exists sk. repeat split; auto.
        -- rewrite lookup_app_l; [assumption | eapply lookup_lt_Some; eassumption].
        -- intros j s' Hj Hs'. apply lookup_snoc_Some in Hj as [[_ Hj] | [_ <-]].
           ++ eauto.
           ++ lra.
        -- intros j s' Hjlt Hj Hs'. apply lookup_snoc_Some in Hj as [[_ Hj] | [Hj _]].
           ++ eauto.
           ++ apply lookup_lt_Some in Hk. lia.
    + destruct Hinv as [-> Hall].
      exists (Some (List.length pre)), (Some (dist_to query s)).
      split; [| reflexivity]. cbn [closest_inv].
      exists s. repeat split; auto.
      * apply list_lookup_middle. reflexivity.
      * intros j s' Hj Hs'. apply lookup_snoc_Some in Hj as [[_ Hj] | [_ <-]].
        -- specialize (Hall j s' Hj). congruence.
        -- lra.
      * intros j s' Hjlt Hj Hs'. apply lookup_snoc_Some in Hj as [[_ Hj] | [Hj _]].
        -- specialize (Hall j s' Hj). congruence.
        -- lia.
Qed.

Lemma closest_inv_loop (l pre : list Space) (cs : option nat) (cd : option R) :
  closest_inv query pre cs cd ->
  exists cd',
    closest_inv query (pre ++ l)
      (findAvailableSpace_loop query l (List.length pre) cs cd) cd'.
Proof.
  revert pre cs cd. induction l as [| s l IH]; intros pre cs cd Hinv.
  - exists cd. rewrite app_nil_r. exact Hinv.
  - destruct (closest_inv_step pre s cs cd Hinv) as (cs' & cd' & Hinv' & Heq).
    rewrite Heq.
    replace (S (List.length pre)) with (List.length (pre ++ [s]))
      by (rewrite length_app; simpl; lia).
    replace (pre ++ s :: l) with ((pre ++ [s]) ++ l)
      by (rewrite <- app_assoc; reflexivity).
    apply IH. exact Hinv'.
Qed.

Lemma findAvailableSpace_inv (lot : t) :
  exists cd, closest_inv query (spaces lot) (findAvailableSpace lot query) cd.
Proof.
  unfold findAvailableSpace.
  apply (closest_inv_loop (spaces lot) [] None None).
  cbn. split; [reflexivity |]. intros j s Hj. rewrite lookup_nil in Hj. discriminate.
Qed.


End NearestScan.

Section NearestScanExamples.

Import ParkingLot.

(** The scan on [lot_1x1] from a point of the z axis. *)
Lemma findAvailableSpace_lot_1x1_low (z : R) :
  z <= 0 -> findAvailableSpace lot_1x1 (THREE.mkVector3 0 0 z) = Some 0%nat.
Proof.
  intros Hz. unfold findAvailableSpace. rewrite lot_1x1_spaces.
  cbn [findAvailableSpace_loop occupied negb ParkingLot.position].
  rewrite !distanceTo_z.
  destruct (Rlt_dec (Rabs (z - 7)) (Rabs (z - -7))) as [Hlt | _]; [| reflexivity].
  exfalso. unfold Rabs in Hlt.
  destruct (Rcase_abs (z - 7)), (Rcase_abs (z - -7)); lra.
Qed.

Lemma findAvailableSpace_lot_1x1_high (z : R) :
  0 < z -> findAvailableSpace lot_1x1 (THREE.mkVector3 0 0 z) = Some 1%nat.
Proof.
  intros Hz. unfold findAvailableSpace. rewrite lot_1x1_spaces.
  cbn [findAvailableSpace_loop occupied negb ParkingLot.position].
  rewrite !distanceTo_z.
  destruct (Rlt_dec (Rabs (z - 7)) (Rabs (z - -7))) as [_ | Hn]; [reflexivity |].
  exfalso. apply Hn. unfold Rabs.
  destruct (Rcase_abs (z - 7)), (Rcase_abs (z - -7)); lra.
Qed.


End NearestScanExamples.

(** ** One vehicle update *)
Section VehicleFacts.

Import ParkingLot Vehicle.

Lemma updateMoving_eq (v : Vehicle.t) (deltaTime : R) (lot : ParkingLot.t)
    (ref : SpaceRef) (tp : THREE.Vector3) (tr : R) :
  targetSpace v = Some ref ->
  deref lot ref = Some (tp, tr) ->
  updateMoving v deltaTime lot
  = let v1 := steer v deltaTime tp in
    let d := distanceToTarget (mesh_position v) tp in
    if Rlt_dec d 1 then
      (setSpaceOccupied lot (Some ref) true, advance (snap v1 tp tr) deltaTime)
    else if Rlt_dec d 5 then
      (lot, advance (set_speed v1 (Math_max (speed v - acceleration v * deltaTime) 0.5))
              deltaTime)
    else
      (lot, advance (set_speed v1
                       (Math_min (speed v + acceleration v * deltaTime) (maxSpeed v)))
              deltaTime).
Proof.
  intros Href Hderef. unfold updateMoving. rewrite Href, Hderef.
  cbv zeta.
  change (THREE.distanceTo (mesh_position (set_mesh_rotation_y v _)) _)
    with (distanceToTarget (mesh_position v) tp).
  destruct (Rlt_dec (distanceToTarget (mesh_position v) tp) 1);
    [reflexivity |].
  destruct (Rlt_dec (distanceToTarget (mesh_position v) tp) 5); reflexivity.
Qed.

Lemma advance_stopped (v : Vehicle.t) (deltaTime : R) :
  speed v = 0 -> mesh_position (advance v deltaTime) = mesh_position v.
Proof.
  intros Hs. unfold advance. cbn [mesh_position set_mesh_position].
  rewrite Hs. destruct (mesh_position v) as [px py pz].
  unfold THREE.add, THREE.multiplyScalar. cbn [THREE.x THREE.y THREE.z].
  f_equal; ring.
Qed.

Lemma snap_advance_position (v : Vehicle.t) (tp : THREE.Vector3) (tr dt : R) :
  mesh_position (advance (snap v tp tr) dt) = tp.
Proof.
  rewrite advance_stopped by reflexivity.
  destruct tp; reflexivity.
Qed.

Lemma car_at_fields (x z rot : R) :
  car_at x z rot
  = mkVehicle car (THREE.mkVector3 x 0 z) rot moving None 0 0 5 2 (PI / 4)
      (THREE.mkVector3 x 0 z) rot.
Proof.
  unfold car_at, Vehicle.constructor.
  cbn [opt_type opt_position opt_rotation THREE.copy THREE.x THREE.y THREE.z].
  rewrite or_default_R_same. reflexivity.
Qed.

Lemma constructor_built (options : Vehicle.Options) : built (Vehicle.constructor options).
Proof. unfold built, Vehicle.constructor. cbn. auto. Qed.

Lemma deref_lot_1x1_0 : deref lot_1x1 (LotSpace 0) = Some (THREE.mkVector3 0 0 (-7), PI).
Proof. unfold deref. rewrite lot_1x1_spaces. reflexivity. Qed.

Lemma deref_lot_1x1_1 : deref lot_1x1 (LotSpace 1) = Some (THREE.mkVector3 0 0 7, 0).
Proof. unfold deref. rewrite lot_1x1_spaces. reflexivity. Qed.

Lemma deref_setSpaceOccupied (lot : ParkingLot.t) (space : option SpaceRef) (b : bool)
    (ref : SpaceRef) :
  deref (setSpaceOccupied lot space b) ref = deref lot ref.
Proof.
  destruct ref as [i | p r]; [| reflexivity].
  destruct (setSpaceOccupied_cases lot space b) as [-> | (j & _ & _ & ->)]; [reflexivity |].
  unfold deref. cbn [spaces set_spaces].
  destruct (decide (j = i)) as [-> | Hne].
  - rewrite list_lookup_alter_eq. destruct (spaces lot !! i); reflexivity.
  - rewrite list_lookup_alter_ne by assumption. reflexivity.
Qed.

Lemma updateMoving_lot (v : Vehicle.t) (dt : R) (lot : ParkingLot.t) :
  fst (updateMoving v dt lot) = lot
  \/ fst (updateMoving v dt lot) = setSpaceOccupied lot (targetSpace v) true.
Proof.
  destruct (targetSpace v) as [ref |] eqn:Href.
  - destruct (deref lot ref) as [[tp tr] |] eqn:Hd.
    + rewrite (updateMoving_eq v dt lot ref tp tr Href Hd). cbv zeta.
      destruct (Rlt_dec _ 1); [right; reflexivity |].
      destruct (Rlt_dec _ 5); left; reflexivity.
    + left. unfold updateMoving. rewrite Href, Hd. reflexivity.
  - left. unfold updateMoving. rewrite Href. reflexivity.
Qed.

Lemma leaveParking_lot (v : Vehicle.t) (lot : ParkingLot.t) :
  fst (leaveParking v lot) = setSpaceOccupied lot (targetSpace v) false.
Proof.
  unfold leaveParking. destruct (targetSpace v); reflexivity.
Qed.

Lemma update_lot (v : Vehicle.t) (dt : R) (lot : ParkingLot.t) (rnd : R) :
  fst (Vehicle.update v dt lot rnd) = lot
  \/ exists b, fst (Vehicle.update v dt lot rnd)
               = setSpaceOccupied lot (targetSpace v) b.
Proof.
  unfold Vehicle.update. destruct (state v).
  - destruct (updateMoving_lot v dt lot) as [H | H]; [left | right; exists true]; exact H.
  - destruct (Rlt_dec rnd 0.001).
    + right. exists false. apply leaveParking_lot.
    + left. reflexivity.
  - cbv zeta. destruct (Rlt_dec 2 _); left; reflexivity.
Qed.

Lemma update_layout (v : Vehicle.t) (dt : R) (lot : ParkingLot.t) (rnd : R) :
  layout (fst (Vehicle.update v dt lot rnd)) = layout lot
  /\ rows (fst (Vehicle.update v dt lot rnd)) = rows lot
  /\ columns (fst (Vehicle.update v dt lot rnd)) = columns lot.
Proof.
  destruct (update_lot v dt lot rnd) as [-> | [b ->]].
  - auto.
  - split; [apply setSpaceOccupied_layout | apply setSpaceOccupied_dims].
Qed.

Lemma update_departed (v : Vehicle.t) (dt : R) (lot : ParkingLot.t) (rnd : R) :
  departed v ->
  fst (Vehicle.update v dt lot rnd) = lot
  /\ departed (snd (Vehicle.update v dt lot rnd)).
Proof.
  intros [(p & r & Ht) Hs]. unfold Vehicle.update.
  destruct (state v) eqn:Hst; [| | congruence].
  - (* moving *)
    rewrite (updateMoving_eq v dt lot (Detached p r) p r Ht eq_refl). cbv zeta.
    destruct (Rlt_dec _ 1); [| destruct (Rlt_dec _ 5)]; cbn [fst snd];
      (split; [reflexivity |]); unfold departed;
      cbn [targetSpace state advance snap steer set_mesh_position
             set_mesh_rotation_y set_state set_speed];
      rewrite ?Ht, ?Hst; (split; [eauto | discriminate]).
  - (* parked *)
    destruct (Rlt_dec rnd 0.001).
    + unfold leaveParking. rewrite Ht. cbn [fst snd setSpaceOccupied].
      split; [reflexivity |]. unfold departed, exitTarget.
      cbn [targetSpace state set_state set_targetSpace].
      split; [eauto | discriminate].
    + cbn [fst snd]. split; [reflexivity |]. split; [eauto | congruence].
Qed.

Lemma later_departed (v w : Vehicle.t) :
  departed v -> later v w -> departed w.
Proof.
  intros Hv Hl. induction Hl as [| w dt lot rnd _ IH]; [exact Hv |].
  apply update_departed. exact IH.
Qed.

Lemma update_flagged (v : Vehicle.t) (dt : R) (lot : ParkingLot.t) (rnd : R) (i : nat) :
  flagged (fst (Vehicle.update v dt lot rnd)) i ->
  holds (snd (Vehicle.update v dt lot rnd)) i
  \/ (flagged lot i /\ ~ holds v i).
Proof.
  unfold Vehicle.update, holds.
  destruct (state v) eqn:Hst.
  - (* moving *)
    destruct (targetSpace v) as [ref |] eqn:Ht.
    + destruct (deref lot ref) as [[tp tr] |] eqn:Hd.
      * rewrite (updateMoving_eq v dt lot ref tp tr Ht Hd). cbv zeta.
        destruct (Rlt_dec _ 1); [| destruct (Rlt_dec _ 5)]; cbn [fst snd]; intros Hf.
        -- apply flagged_set_true in Hf as [Heq | Hf].
           ++ left. unfold advance, snap, steer. vehicle_fields.
              split; [reflexivity | congruence].
           ++ right. split; [exact Hf | intros [? _]; discriminate].
        -- right. split; [exact Hf | intros [? _]; discriminate].
        -- right. split; [exact Hf | intros [? _]; discriminate].
      * unfold updateMoving. rewrite Ht, Hd. cbn [fst snd]. intros Hf.
        right. split; [exact Hf | intros [? _]; congruence].
    + unfold updateMoving. rewrite Ht. cbn [fst snd]. intros Hf.
      right. split; [exact Hf | intros [? _]; discriminate].
  - (* parked *)
    destruct (Rlt_dec rnd 0.001).
    + unfold leaveParking. destruct (targetSpace v) as [ref |] eqn:Ht; cbn [fst snd]; intros Hf.
      * apply flagged_set_false in Hf as [Hf Hne].
        right. split; [exact Hf | intros [_ ?]; congruence].
      * right. split; [exact Hf | intros [_ ?]; congruence].
    + cbn [fst snd]. intros Hf.
      destruct (targetSpace v) as [[j | p r] |] eqn:Ht.
      * destruct (decide (j = i)) as [-> | Hne].
        -- left. auto.
        -- right. split; [exact Hf | intros [_ ?]; congruence].
      * right. split; [exact Hf | intros [_ ?]; congruence].
      * right. split; [exact Hf | intros [_ ?]; congruence].
  - (* waiting *)
    cbv zeta. destruct (Rlt_dec 2 _); cbn [fst snd]; intros Hf;
      (right; split; [exact Hf | intros [? _]; congruence]).
Qed.

Lemma holder_inv_step (pre vs : list Vehicle.t) (v : Vehicle.t)
    (dt : R) (lot : ParkingLot.t) (rnd : R) :
  holder_inv lot (pre ++ v :: vs) ->
  holder_inv (fst (Vehicle.update v dt lot rnd))
    (pre ++ snd (Vehicle.update v dt lot rnd) :: vs).
Proof.
  intros Hinv i Hf.
  apply update_flagged in Hf as [Hh | [Hf Hnh]].
  - exists (List.length pre), (snd (Vehicle.update v dt lot rnd)).
    split; [apply list_lookup_middle; reflexivity | exact Hh].
  - destruct (Hinv i Hf) as (k & w & Hk & Hw).
    exists k, w. split; [| exact Hw].
    destruct (decide (k = List.length pre)) as [-> | Hne].
    + rewrite list_lookup_middle in Hk by reflexivity.
      injection Hk as <-. contradiction.
    + apply lookup_app_Some in Hk as [Hk | [Hge Hk]].
      * apply lookup_app_Some. left. exact Hk.
      * apply lookup_app_Some. right. split; [exact Hge |].
        destruct (k - List.length pre)%nat as [| m] eqn:Hm; [lia |].
        exact Hk.
Qed.

Lemma findParkingSpace_target (v : Vehicle.t) (lot : ParkingLot.t) (i : nat) :
  targetSpace (findParkingSpace v lot) = Some (LotSpace i) ->
  targetSpace v <> Some (LotSpace i) ->
  exists s, spaces lot !! i = Some s /\ occupied s = false.
Proof.
  unfold findParkingSpace.
  destruct (findAvailableSpace_inv (mesh_position v) lot) as [cd Hinv].
  destruct (findAvailableSpace lot (mesh_position v)) as [j |]; vehicle_fields.
  - intros Heq _. injection Heq as ->. cbn [closest_inv] in Hinv.
    destruct Hinv as (sk & Hk & Hfree & _). eauto.
  - intros Heq Hne. contradiction.
Qed.

Lemma update_acquires_free (v : Vehicle.t) (dt : R) (lot : ParkingLot.t) (rnd : R) (i : nat) :
  targetSpace (snd (Vehicle.update v dt lot rnd)) = Some (LotSpace i) ->
  targetSpace v <> Some (LotSpace i) ->
  exists s, spaces lot !! i = Some s /\ occupied s = false.
Proof.
  unfold Vehicle.update. destruct (state v) eqn:Hst.
  - destruct (targetSpace v) as [ref |] eqn:Ht.
    + destruct (deref lot ref) as [[tp tr] |] eqn:Hd.
      * rewrite (updateMoving_eq v dt lot ref tp tr Ht Hd). cbv zeta.
        destruct (Rlt_dec _ 1); [| destruct (Rlt_dec _ 5)];
          unfold advance, snap, steer; vehicle_fields; rewrite Ht; congruence.
      * unfold updateMoving. rewrite Ht, Hd. cbn [snd]. rewrite Ht. congruence.
    + unfold updateMoving. rewrite Ht. cbn [snd]. rewrite <- Ht.
      apply findParkingSpace_target.
  - destruct (Rlt_dec rnd 0.001).
    + unfold leaveParking. destruct (targetSpace v) as [ref |] eqn:Ht; vehicle_fields.
      * unfold exitTarget. discriminate.
      * rewrite Ht. discriminate.
    + cbn [snd]. congruence.
  - cbv zeta. destruct (Rlt_dec 2 _); cbn [snd].
    + change (targetSpace (set_waitTime ?u _)) with (targetSpace u).
      intros H Hne. apply (findParkingSpace_target _ lot i) in H; [exact H |].
      exact Hne.
    + vehicle_fields. congruence.
Qed.

Lemma update_seek_low (v : Vehicle.t) (z dt rnd : R) :
  state v = moving -> targetSpace v = None ->
  mesh_position v = THREE.mkVector3 0 0 z -> z <= 0 ->
  Vehicle.update v dt lot_1x1 rnd = (lot_1x1, heading_for v 0).
Proof.
  intros Hst Ht Hp Hz. unfold Vehicle.update, updateMoving. rewrite Hst, Ht.
  unfold findParkingSpace. rewrite Hp, findAvailableSpace_lot_1x1_low by exact Hz.
  reflexivity.
Qed.

Lemma update_snap_low (v : Vehicle.t) (lot : ParkingLot.t) (z dt rnd : R) :
  state v = moving -> targetSpace v = Some (LotSpace 0) ->
  deref lot (LotSpace 0) = Some (THREE.mkVector3 0 0 (-7), PI) ->
  mesh_position v = THREE.mkVector3 0 0 z -> -2 < z < 0 ->
  exists v',
    Vehicle.update v dt lot rnd = (setSpaceOccupied lot (Some (LotSpace 0)) true, v')
    /\ holds v' 0
    /\ mesh_position v' = THREE.mkVector3 0 0 (-7)
    /\ mesh_rotation_y v' = PI.
Proof.
  intros Hst Ht Hd Hp Hz. unfold Vehicle.update. rewrite Hst.
  rewrite (updateMoving_eq v dt lot (LotSpace 0) _ _ Ht Hd). cbv zeta.
  rewrite Hp, distanceToTarget_z_down by lra.
  destruct (Rlt_dec _ 1) as [_ | Hn].
  2:{ exfalso. apply Hn. apply Rabs_lt_iff. lra. }
  eexists. split; [reflexivity |].
  split; [| split].
  - unfold holds, advance, snap, steer. vehicle_fields. auto.
  - apply snap_advance_position.
  - reflexivity.
Qed.


End VehicleFacts.

(** ** The simulation *)
Section SimulationFacts.

Import ParkingLot Vehicle.

Lemma forEach_update_layout (dt : R) (random : nat -> R) (vs : list Vehicle.t) :
  forall (k : nat) (lot : ParkingLot.t),
    let lot' := fst (ParkingSimulation.forEach_update dt random k lot vs) in
    layout lot' = layout lot /\ rows lot' = rows lot /\ columns lot' = columns lot.
Proof.
  induction vs as [| v vs IH]; intros k lot; cbn [ParkingSimulation.forEach_update].
  - cbn. auto.
  - pose proof (update_layout v dt lot (random k)) as Hu.
    destruct (Vehicle.update v dt lot (random k)) as [lot1 v1]. cbn [fst] in Hu.
    specialize (IH (S k) lot1). cbv zeta in IH.
    destruct (ParkingSimulation.forEach_update dt random (S k) lot1 vs) as [lot2 vs2].
    cbn [fst] in *. cbv zeta.
    destruct Hu as (Hl & Hr & Hc), IH as (Hl' & Hr' & Hc').
    repeat split; congruence.
Qed.

Lemma forEach_update_length (dt : R) (random : nat -> R) (vs : list Vehicle.t) :
  forall (k : nat) (lot : ParkingLot.t),
    List.length (snd (ParkingSimulation.forEach_update dt random k lot vs))
    = List.length vs.
Proof.
  induction vs as [| v vs IH]; intros k lot; cbn [ParkingSimulation.forEach_update].
  - reflexivity.
  - destruct (Vehicle.update v dt lot (random k)) as [lot1 v1].
    specialize (IH (S k) lot1).
    destruct (ParkingSimulation.forEach_update dt random (S k) lot1 vs) as [lot2 vs2].
    cbn [snd] in *. cbn. congruence.
Qed.

Lemma sim_update_layout (sim : ParkingSimulation.t) (dt : R) (random : nat -> R) :
  let lot := ParkingSimulation.parkingLot sim in
  let lot' := ParkingSimulation.parkingLot (ParkingSimulation.update sim dt random) in
  layout lot' = layout lot /\ rows lot' = rows lot /\ columns lot' = columns lot.
Proof.
  cbv zeta. unfold ParkingSimulation.update.
  pose proof (forEach_update_layout dt random (ParkingSimulation.vehicles sim) 0%nat
                (ParkingSimulation.parkingLot sim)) as H.
  cbv zeta in H.
  destruct (ParkingSimulation.forEach_update dt random 0
              (ParkingSimulation.parkingLot sim) (ParkingSimulation.vehicles sim))
    as [lot' vs'].
  exact H.
Qed.

Lemma animate_layout (sim : ParkingSimulation.t) (dt : R) (random : nat -> R) :
  let lot := ParkingSimulation.parkingLot sim in
  let lot' := ParkingSimulation.parkingLot (ParkingSimulation.animate sim dt random) in
  layout lot' = layout lot /\ rows lot' = rows lot /\ columns lot' = columns lot.
Proof.
  cbv zeta. unfold ParkingSimulation.animate.
  destruct (ParkingSimulation.isRunning sim).
  - apply sim_update_layout.
  - auto.
Qed.

Lemma forEach_update_holder_inv (dt : R) (random : nat -> R) (vs : list Vehicle.t) :
  forall (pre : list Vehicle.t) (k : nat) (lot : ParkingLot.t),
    holder_inv lot (pre ++ vs) ->
    holder_inv (fst (ParkingSimulation.forEach_update dt random k lot vs))
      (pre ++ snd (ParkingSimulation.forEach_update dt random k lot vs)).
Proof.
  induction vs as [| v vs IH]; intros pre k lot Hinv;
    cbn [ParkingSimulation.forEach_update].
  - exact Hinv.
  - pose proof (holder_inv_step pre vs v dt lot (random k) Hinv) as Hstep.
    destruct (Vehicle.update v dt lot (random k)) as [lot1 v1]. cbn [fst snd] in Hstep.
    specialize (IH (pre ++ [v1]) (S k) lot1).
    rewrite <- app_assoc in IH. cbn [app] in IH. specialize (IH Hstep).
    destruct (ParkingSimulation.forEach_update dt random (S k) lot1 vs) as [lot2 vs2].
    cbn [fst snd] in *. rewrite <- app_assoc in IH. exact IH.
Qed.

Lemma reachable_holder_inv (sim : ParkingSimulation.t) :
  ParkingSimulation.reachable sim ->
  holder_inv (ParkingSimulation.parkingLot sim) (ParkingSimulation.vehicles sim).
Proof.
  intros Hreach.
  induction Hreach as [scenario | sim dt random _ IH _ | sim _ IH | sim scenario _ _].
  - intros i Hf. exfalso. exact (constructor_not_flagged _ i Hf).
  - unfold ParkingSimulation.animate.
    destruct (ParkingSimulation.isRunning sim); [| exact IH].
    unfold ParkingSimulation.update.
    pose proof (forEach_update_holder_inv dt random (ParkingSimulation.vehicles sim)
                  [] 0%nat (ParkingSimulation.parkingLot sim) IH) as H.
    destruct (ParkingSimulation.forEach_update dt random 0
                (ParkingSimulation.parkingLot sim) (ParkingSimulation.vehicles sim))
      as [lot' vs'].
    exact H.
  - exact IH.
  - intros i Hf. exfalso. exact (constructor_not_flagged _ i Hf).
Qed.


End SimulationFacts.

(** ** Statistics *)
Section StatsFacts.

Import ParkingSimulation.

Lemma tally_totalWaitTime (vs : list Vehicle.t) :
  forall acc,
    t_totalWaitTime (fold_left tally_step vs acc)
    = t_totalWaitTime acc + sum_R (map waitContribution vs).
Proof.
  induction vs as [| v vs IH]; intros acc; cbn [fold_left map sum_R fold_right].
  - lra.
  - rewrite IH. fold (sum_R (map waitContribution vs)).
    unfold tally_step, Vehicle.getWaitTime, waitContribution,
      Vehicle.isParked, Vehicle.isMoving.
    destruct (Vehicle.state v); cbn [t_totalWaitTime]; lra.
Qed.

Lemma tally_parked (vs : list Vehicle.t) :
  forall acc,
    t_parked (fold_left tally_step vs acc) = (t_parked acc + count_parked vs)%nat.
Proof.
  unfold count_parked.
  induction vs as [| v vs IH]; intros acc; cbn [fold_left List.filter].
  - cbn. lia.
  - rewrite IH. unfold tally_step, Vehicle.isMoving.
    destruct (Vehicle.isParked v); [| destruct (Vehicle.state v)];
      cbn [t_parked List.length]; lia.
Qed.

Lemma updateStats_average (sim : ParkingSimulation.t) :
  averageWaitTime (stats (updateStats sim))
  = mean (map waitContribution (vehicles sim)).
Proof.
  unfold updateStats. cbn [stats averageWaitTime].
  rewrite tally_totalWaitTime. cbn [t_totalWaitTime].
  destruct (vehicles sim) as [| v vs] eqn:Hvs.
  - reflexivity.
  - rewrite bool_decide_eq_true_2 by (cbn; lia).
    unfold mean. cbn [map List.length]. rewrite length_map.
    f_equal. lra.
Qed.

Lemma update_is_updateStats (sim : ParkingSimulation.t) (dt : R) (random : nat -> R) :
  exists sim1,
    ParkingSimulation.update sim dt random = updateStats sim1
    /\ vehicles (ParkingSimulation.update sim dt random) = vehicles sim1.
Proof.
  unfold ParkingSimulation.update.
  destruct (forEach_update dt random 0 (parkingLot sim) (vehicles sim)) as [lot vs].
  eexists. split; reflexivity.
Qed.


End StatsFacts.

(** * The claims *)

Section ClaimSupport.

Import ParkingLot Vehicle.

(** The turn of one tick is at most [turnSpeed * deltaTime] in size and
    has the sign of [angleDiff]. *)
Lemma turnAmount_bounded (v : Vehicle.t) (dt : R) (tp : THREE.Vector3) :
  0 <= turnSpeed v * dt ->
  Rabs (turnAmount v dt tp) <= turnSpeed v * dt
  /\ 0 <= turnAmount v dt tp
          * angleDiff (mesh_position v) tp (mesh_rotation_y v).
Proof.
  intros Hb. unfold turnAmount. cbv zeta.
  set (a := angleDiff (mesh_position v) tp (mesh_rotation_y v)).
  unfold Math_min, Math_abs.
  assert (Hm : 0 <= Rmin (Rabs a) (turnSpeed v * dt) <= turnSpeed v * dt).
  { pose proof (Rabs_pos a). unfold Rmin. destruct (Rle_dec _ _); lra. }
  unfold Math_sign.
  destruct (Rlt_dec 0 a); [| destruct (Rlt_dec a 0)].
  - rewrite Rmult_1_r. rewrite Rabs_right by lra. split; [lra | nra].
  - replace (Rmin (Rabs a) (turnSpeed v * dt) * -1)
      with (- Rmin (Rabs a) (turnSpeed v * dt)) by ring.
    rewrite Rabs_Ropp, Rabs_right by lra. split; [lra | nra].
  - rewrite Rmult_0_r, Rabs_R0. split; lra.
Qed.

Lemma two_cars_trace :
  ParkingSimulation.reachable two_cars_after_two_frames
  /\ exists v1 v2,
       ParkingSimulation.vehicles two_cars_after_two_frames !! 0%nat = Some v1
       /\ ParkingSimulation.vehicles two_cars_after_two_frames !! 1%nat = Some v2
       /\ holds v1 0 /\ holds v2 0
       /\ mesh_position v1 = THREE.mkVector3 0 0 (-7)
       /\ mesh_position v2 = THREE.mkVector3 0 0 (-7)
       /\ flagged (ParkingSimulation.parkingLot two_cars_after_two_frames) 0.
Proof.
  split.
  { unfold two_cars_after_two_frames.
    apply ParkingSimulation.reach_animate; [| unfold frame_time; lra].
    apply ParkingSimulation.reach_animate; [| unfold frame_time; lra].
    apply ParkingSimulation.reach_init. }
  unfold two_cars_after_two_frames.
  assert (H1 : exists st,
             ParkingSimulation.animate (ParkingSimulation.init two_cars) frame_time no_draw
             = ParkingSimulation.mkSim lot_1x1
                 [heading_for (car_at 0 (-1) 0) 0; heading_for (car_at 0 (-3 / 2) 0) 0]
                 true (0 + frame_time) st).
  { unfold ParkingSimulation.animate, ParkingSimulation.init,
      ParkingSimulation.loadCurrentScenario, ParkingSimulation.isRunning.
    cbn [ParkingSimulation.running ParkingSimulation.update].
    unfold ParkingSimulation.update.
    cbn [ParkingSimulation.parkingLot ParkingSimulation.vehicles
         ParkingSimulation.elapsedTime ParkingSimulation.running
         ParkingSimulation.stats ParkingSimulation.sc_parkingLot
         ParkingSimulation.initialVehicles two_cars map
         ParkingSimulation.vd_type ParkingSimulation.vd_x ParkingSimulation.vd_z
         ParkingSimulation.vd_rotation ParkingSimulation.vd_color
         ParkingSimulation.forEach_update].
    fold lot_1x1.
    change (Vehicle.constructor
              (Vehicle.mkOptions (Some car) (Some (THREE.mkVector3 0 0 (-1))) (Some 0)
                 (Some 0xff0000%Z)))
      with (car_at 0 (-1) 0).
    change (Vehicle.constructor
              (Vehicle.mkOptions (Some car) (Some (THREE.mkVector3 0 0 (-3 / 2))) (Some 0)
                 (Some 0x0000ff%Z)))
      with (car_at 0 (-3 / 2) 0).
    rewrite (update_seek_low (car_at 0 (-1) 0) (-1) frame_time (no_draw 0%nat));
      [| rewrite car_at_fields; reflexivity .. | lra].
    rewrite (update_seek_low (car_at 0 (-3 / 2) 0) (-3 / 2) frame_time (no_draw 1%nat));
      [| rewrite car_at_fields; reflexivity .. | lra].
    unfold ParkingSimulation.updateStats.
    cbn [ParkingSimulation.parkingLot ParkingSimulation.vehicles
         ParkingSimulation.elapsedTime ParkingSimulation.running].
    eexists. reflexivity. }
  destruct H1 as [st ->].
  unfold ParkingSimulation.animate, ParkingSimulation.isRunning.
  cbn [ParkingSimulation.running].
  unfold ParkingSimulation.update.
  cbn [ParkingSimulation.parkingLot ParkingSimulation.vehicles
       ParkingSimulation.elapsedTime ParkingSimulation.running
       ParkingSimulation.stats ParkingSimulation.forEach_update].
  destruct (update_snap_low (heading_for (car_at 0 (-1) 0) 0) lot_1x1 (-1) frame_time (no_draw 0%nat))
    as (v1 & -> & Hh1 & Hp1 & _);
    [rewrite car_at_fields; reflexivity .. | exact deref_lot_1x1_0
     | rewrite car_at_fields; reflexivity | lra |].
  destruct (update_snap_low (heading_for (car_at 0 (-3 / 2) 0) 0)
              (setSpaceOccupied lot_1x1 (Some (LotSpace 0)) true) (-3 / 2) frame_time (no_draw 1%nat))
    as (v2 & -> & Hh2 & Hp2 & _);
    [rewrite car_at_fields; reflexivity .. | rewrite deref_setSpaceOccupied; exact deref_lot_1x1_0
     | rewrite car_at_fields; reflexivity | lra |].
  unfold ParkingSimulation.updateStats.
  cbn [ParkingSimulation.parkingLot ParkingSimulation.vehicles].
  exists v1, v2.
  repeat (split; [first [reflexivity | assumption] |]).
  apply flagged_after_set.
  rewrite (layout_length _ _ (setSpaceOccupied_layout _ _ _)), lot_1x1_spaces.
  cbn. lia.
Qed.

(** When the test of the snap branch succeeds for a vehicle bound for the
    exit, the vehicle ends the tick parked on the exit point and the lot
    is what it was. *)
Lemma exit_snap_leaves_lot (v : Vehicle.t) (dt : R) (lot : ParkingLot.t) :
  targetSpace v = Some exitTarget ->
  distanceToTarget (mesh_position v) (THREE.mkVector3 (-50) 0 0) < 1 ->
  state (snd (updateMoving v dt lot)) = parked
  /\ mesh_position (snd (updateMoving v dt lot)) = THREE.mkVector3 (-50) 0 0
  /\ fst (updateMoving v dt lot) = lot.
Proof.
  intros Ht Hnear.
  rewrite (updateMoving_eq v dt lot exitTarget _ _ Ht eq_refl). cbv zeta.
  destruct (Rlt_dec _ 1) as [_ | Hn]; [| contradiction].
  cbn [fst snd]. split; [reflexivity |].
  split; [apply snap_advance_position | reflexivity].
Qed.

End ClaimSupport.

Section Claims.

Import ParkingLot Vehicle.

(** C1.  The code steers one heading and drives along the opposite one.
    [moveDirection], along which the position advances, is the negation
    of [currentDirection], the heading that is turned towards the
    target, for every rotation.  The turn itself is bounded by
    [turnSpeed * deltaTime] and has the sign of [angleDiff].  At the two
    concrete vehicles: a car that already faces its target does not
    turn and is moved straight away from it; a car whose target lies a
    quarter turn aside turns its [currentDirection] towards the target,
    so the cosine of the angle between [moveDirection] and the direction
    to the target drops from 0 to a negative value: that angle grows
    under the turn. *)
Theorem steering_and_motion_disagree :
  (forall a : R,
      moveDirection a = THREE.multiplyScalar (currentDirection a) (-1))
  /\ (forall (v : Vehicle.t) (dt : R) (tp : THREE.Vector3),
         0 <= turnSpeed v * dt ->
         Rabs (turnAmount v dt tp) <= turnSpeed v * dt
         /\ 0 <= turnAmount v dt tp
                 * angleDiff (mesh_position v) tp (mesh_rotation_y v))
  /\ (let v := heading_for (car_at 0 3 0) 1 in
      let v' := snd (updateMoving v 1 lot_1x1) in
      angleDiff (mesh_position v) (THREE.mkVector3 0 0 7) (mesh_rotation_y v) = 0
      /\ state v' = moving
      /\ mesh_rotation_y v' = 0
      /\ speed v' = 1 / 2
      /\ mesh_position v' = THREE.mkVector3 0 0 (5 / 2))
  /\ (let v := heading_for (car_at (-10) 7 0) 1 in
      let v' := snd (updateMoving v 1 lot_1x1) in
      let d := dirToTarget (mesh_position v) (THREE.mkVector3 0 0 7) in
      d = THREE.mkVector3 1 0 0
      /\ mesh_rotation_y v' = PI / 4
      /\ planar_dot (currentDirection (mesh_rotation_y v)) d = 0
      /\ 0 < planar_dot (currentDirection (mesh_rotation_y v')) d
      /\ planar_dot (moveDirection (mesh_rotation_y v)) d = 0
      /\ planar_dot (moveDirection (mesh_rotation_y v')) d < 0
      /\ THREE.x (mesh_position v') < THREE.x (mesh_position v)).
Proof.
  split; [exact moveDirection_opposite |].
  split; [exact turnAmount_bounded |].
  split.
  { cbv zeta. rewrite car_at_fields.
    rewrite (updateMoving_eq (heading_for _ 1) 1 lot_1x1 (LotSpace 1) _ _ eq_refl deref_lot_1x1_1).
    cbv zeta.
    vehicle_fields.
    rewrite distanceToTarget_z_up by lra.
    pose proof (angleDiff_aligned_z 3 7 ltac:(lra)) as Ha.
    split; [exact Ha |].
    destruct (Rlt_dec _ 1) as [H | _].
    { apply Rabs_lt_iff in H. lra. }
    destruct (Rlt_dec _ 5) as [_ | H].
    2:{ exfalso. apply H. apply Rabs_lt_iff. lra. }
    unfold advance, steer, turnAmount. vehicle_fields.
    rewrite Ha, Math_sign_0.
    assert (Hs : Math_max (0 - 2 * 1) 0.5 = 1 / 2).
    { unfold Math_max. rewrite Rmax_right by lra. lra. }
    rewrite Hs.
    split; [reflexivity |].
    split; [lra |].
    split; [reflexivity |].
    replace (0 + Math_min (Math_abs 0) (PI / 4 * 1) * 0) with 0 by ring.
    rewrite moveDirection_eq, sin_0, cos_0.
    unfold THREE.add, THREE.multiplyScalar. cbn [THREE.x THREE.y THREE.z].
    f_equal; lra. }
  cbv zeta. rewrite car_at_fields.
  rewrite (updateMoving_eq (heading_for _ 1) 1 lot_1x1 (LotSpace 1) _ _ eq_refl deref_lot_1x1_1).
  cbv zeta.
  vehicle_fields.
  pose proof PI_RGT_0 as Hpi.
  pose proof (angleDiff_quarter (-10) 0 7 ltac:(lra)) as Ha.
  pose proof (dirToTarget_x_right (-10) 0 7 ltac:(lra)) as Hd.
  assert (Hsin : 0 < sin (PI / 4)) by (apply sin_gt_0; lra).
  assert (Hrot : 0 + Math_min (Math_abs (PI / 2)) (PI / 4 * 1) * Math_sign (PI / 2) = PI / 4).
  { rewrite Math_sign_pos by lra. unfold Math_min, Math_abs.
    rewrite Rabs_right by lra. rewrite Rmin_right by lra. lra. }
  assert (Hfar : 5 <= distanceToTarget (THREE.mkVector3 (-10) 0 7) (THREE.mkVector3 0 0 7)).
  { unfold distanceToTarget. rewrite Hd. unfold THREE.distanceTo.
    apply sqrt_ge_bound; [lra |].
    unfold THREE.distanceToSquared. cbn [THREE.x THREE.y THREE.z]. lra. }
  destruct (Rlt_dec _ 1) as [H | _]; [lra |].
  destruct (Rlt_dec _ 5) as [H | _]; [lra |].
  unfold advance, steer, turnAmount. vehicle_fields.
  rewrite Ha, Hrot, Hd.
  rewrite !currentDirection_eq, !moveDirection_eq, sin_0, cos_0.
  unfold planar_dot, THREE.add, THREE.multiplyScalar. cbn [THREE.x THREE.y THREE.z].
  assert (Hs : Math_min (0 + 2 * 1) 5 = 2).
  { unfold Math_min. rewrite Rmin_left by lra. lra. }
  rewrite Hs.
  repeat split; try lra.
Qed.

(** C2, as the code has it.  In every state of a session each space
    whose occupancy flag is set is the target of at least one parked
    vehicle, and an update gives a vehicle a space of the lot as a new
    target only if the flag of that space is clear at that moment. *)
Theorem occupancy_flag_discipline (sim : ParkingSimulation.t) :
  ParkingSimulation.reachable sim ->
  (forall i, flagged (ParkingSimulation.parkingLot sim) i ->
     exists k v, ParkingSimulation.vehicles sim !! k = Some v
       /\ state v = parked /\ targetSpace v = Some (LotSpace i))
  /\ (forall (v : Vehicle.t) (dt rnd : R) (i : nat),
        targetSpace (snd (Vehicle.update v dt (ParkingSimulation.parkingLot sim) rnd))
        = Some (LotSpace i) ->
        targetSpace v <> Some (LotSpace i) ->
        exists s, spaces (ParkingSimulation.parkingLot sim) !! i = Some s
          /\ occupied s = false).
Proof.
  intros Hreach. split.
  - intros i Hf. exact (reachable_holder_inv sim Hreach i Hf).
  - intros v dt rnd i. apply update_acquires_free.
Qed.

Lemma occupancy_flag_discipline_witness :
  ParkingSimulation.reachable two_cars_after_two_frames
  /\ flagged (ParkingSimulation.parkingLot two_cars_after_two_frames) 0
  /\ exists k v, ParkingSimulation.vehicles two_cars_after_two_frames !! k = Some v
       /\ state v = parked /\ targetSpace v = Some (LotSpace 0).
Proof.
  destruct two_cars_trace as (Hreach & v1 & v2 & _ & _ & _ & _ & _ & _ & Hf).
  split; [exact Hreach |]. split; [exact Hf |].
  exact (proj1 (occupancy_flag_discipline two_cars_after_two_frames Hreach) 0%nat Hf).
Defined.

(** C2, as stated, fails: after two frames of the scenario [two_cars]
    the two cars, which chose space 0 while it was free, are both
    parked in it, on its position, and its flag is set. *)
Lemma double_parking :
  exists (sim : ParkingSimulation.t) (k1 k2 : nat) (v1 v2 : Vehicle.t) (i : nat),
    ParkingSimulation.reachable sim
    /\ k1 <> k2
    /\ ParkingSimulation.vehicles sim !! k1 = Some v1
    /\ ParkingSimulation.vehicles sim !! k2 = Some v2
    /\ (state v1 = parked /\ targetSpace v1 = Some (LotSpace i))
    /\ (state v2 = parked /\ targetSpace v2 = Some (LotSpace i))
    /\ mesh_position v1 = THREE.mkVector3 0 0 (-7)
    /\ mesh_position v2 = THREE.mkVector3 0 0 (-7)
    /\ flagged (ParkingSimulation.parkingLot sim) i.
Proof.
  destruct two_cars_trace as (Hreach & v1 & v2 & H1 & H2 & Hh1 & Hh2 & Hp1 & Hp2 & Hf).
  exists two_cars_after_two_frames, 0%nat, 1%nat, v1, v2, 0%nat.
  repeat split; try assumption; try apply Hh1; try apply Hh2. lia.
Qed.

(** C3.  findAvailableSpace returns a space that is not occupied and
    whose distance to the query position is minimal among the spaces
    that are not occupied; among equally near ones the first in array
    order is returned (every free space before the returned one is
    strictly farther); it returns null exactly when every space is
    occupied. *)
Theorem findAvailableSpace_nearest_free
    (lot : ParkingLot.t) (position : THREE.Vector3) :
  match findAvailableSpace lot position with
  | Some i =>
      exists s, spaces lot !! i = Some s
        /\ occupied s = false
        /\ (forall j s', spaces lot !! j = Some s' -> occupied s' = false ->
              THREE.distanceTo position (ParkingLot.position s)
              <= THREE.distanceTo position (ParkingLot.position s'))
        /\ (forall j s', (j < i)%nat -> spaces lot !! j = Some s' ->
              occupied s' = false ->
              THREE.distanceTo position (ParkingLot.position s)
              < THREE.distanceTo position (ParkingLot.position s'))
  | None => forall j s, spaces lot !! j = Some s -> occupied s = true
  end
  /\ (findAvailableSpace lot position = None
      <-> forall j s, spaces lot !! j = Some s -> occupied s = true).
Proof.
  destruct (findAvailableSpace_inv position lot) as [cd Hinv].
  destruct (findAvailableSpace lot position) as [i |]; cbn [closest_inv] in Hinv.
  - destruct Hinv as (sk & Hk & Hfree & _ & Hmin & Hfirst).
    split.
    + exists sk. repeat split; assumption.
    + split; [discriminate |].
      intros Hall. specialize (Hall i sk Hk). congruence.
  - destruct Hinv as [_ Hall]. split; [exact Hall |].
    split; [intros _; exact Hall | reflexivity].
Qed.


(** C4.  A car half a unit away from its target, space 0 of [lot_1x1],
    is not snapped: whatever the elapsed time, the tick leaves it
    [moving] and leaves the lot, and so the flag of space 0, as it was.
    The distance the code tests is the one to the unit direction vector,
    11/2 here. *)
Theorem snap_missed_next_to_space (dt : R) :
  let v := heading_for (car_at 0 (-13 / 2) 0) 0 in
  deref lot_1x1 (LotSpace 0) = Some (THREE.mkVector3 0 0 (-7), PI)
  /\ THREE.distanceTo (mesh_position v) (THREE.mkVector3 0 0 (-7)) = 1 / 2
  /\ distanceToTarget (mesh_position v) (THREE.mkVector3 0 0 (-7)) = 11 / 2
  /\ state (snd (updateMoving v dt lot_1x1)) = moving
  /\ fst (updateMoving v dt lot_1x1) = lot_1x1
  /\ ~ flagged (fst (updateMoving v dt lot_1x1)) 0.
Proof.
  cbv zeta. rewrite car_at_fields.
  split; [exact deref_lot_1x1_0 |].
  split.
  { vehicle_fields. rewrite distanceTo_z.
    unfold Rabs. destruct (Rcase_abs _); lra. }
  split.
  { vehicle_fields. rewrite distanceToTarget_z_down by lra.
    unfold Rabs. destruct (Rcase_abs _); lra. }
  rewrite (updateMoving_eq (heading_for _ 0) dt lot_1x1 (LotSpace 0) _ _ eq_refl
             deref_lot_1x1_0).
  cbv zeta. vehicle_fields.
  rewrite distanceToTarget_z_down by lra.
  destruct (Rlt_dec _ 1) as [H | _].
  { apply Rabs_lt_iff in H. lra. }
  destruct (Rlt_dec _ 5) as [H | _].
  { apply Rabs_lt_iff in H. lra. }
  cbn [fst snd].
  split; [reflexivity |]. split; [reflexivity |].
  apply constructor_not_flagged.
Qed.

(** C5.  When the departure check of a parked vehicle fires (the draw
    is below 0.001) and the vehicle's target is a space of the lot, the
    update leaves that space with its flag false and its row, column,
    side, position and rotation as they were, changes no other space,
    replaces the target by the exit object at (-50, 0, 0) and makes the
    vehicle [moving]; whatever updates the vehicle receives afterwards,
    none of them changes the lot, so the space is not released a second
    time.  leaveParking on a vehicle without a target changes nothing. *)
Theorem departure_releases_once
    (v : Vehicle.t) (lot : ParkingLot.t) (i : nat) (dt rnd : R) :
  state v = parked ->
  targetSpace v = Some (LotSpace i) ->
  (i < List.length (spaces lot))%nat ->
  rnd < 0.001 ->
  let lot' := fst (Vehicle.update v dt lot rnd) in
  let v' := snd (Vehicle.update v dt lot rnd) in
  (exists s s', spaces lot !! i = Some s
     /\ spaces lot' !! i = Some s'
     /\ occupied s' = false
     /\ row s' = row s /\ col s' = col s /\ side s' = side s
     /\ ParkingLot.position s' = ParkingLot.position s
     /\ ParkingLot.rotation s' = ParkingLot.rotation s)
  /\ ~ flagged lot' i
  /\ (forall j, j <> i -> spaces lot' !! j = spaces lot !! j)
  /\ targetSpace v' = Some (Detached (THREE.mkVector3 (-50) 0 0) 0)
  /\ state v' = moving
  /\ (forall w, later v' w ->
        forall dt2 lot2 rnd2, fst (Vehicle.update w dt2 lot2 rnd2) = lot2)
  /\ (forall (u : Vehicle.t) (lot0 : ParkingLot.t),
        targetSpace u = None -> leaveParking u lot0 = (lot0, u)).
Proof.
  intros Hst Ht Hi Hrnd. cbv zeta.
  unfold Vehicle.update. rewrite Hst.
  destruct (Rlt_dec rnd 0.001) as [_ | Hn]; [| contradiction].
  unfold leaveParking. rewrite Ht. cbn [fst snd setSpaceOccupied includes].
  rewrite bool_decide_eq_true_2 by exact Hi.
  cbn [spaces set_spaces targetSpace state set_state set_targetSpace].
  destruct (lookup_lt_is_Some_2 _ _ Hi) as [s Hs].
  assert (Hnew : alter (set_occupied false) i (spaces lot) !! i
                 = Some (set_occupied false s)).
  { rewrite list_lookup_alter_eq, Hs. reflexivity. }
  split.
  { exists s, (set_occupied false s).
    split; [exact Hs |]. split; [exact Hnew |].
    repeat split; reflexivity. }
  split.
  { intros (s' & Hs' & Hocc). cbn [spaces set_spaces] in Hs'. rewrite Hnew in Hs'.
    injection Hs' as <-. discriminate Hocc. }
  split; [intros j Hne; apply list_lookup_alter_ne; congruence |].
  split; [reflexivity |].
  split; [reflexivity |].
  split.
  - intros w Hw dt2 lot2 rnd2.
    apply update_departed.
    apply (later_departed _ w) in Hw; [exact Hw |].
    split; [unfold exitTarget; eauto | discriminate].
  - intros u lot0 Hu. unfold leaveParking. rewrite Hu. reflexivity.
Qed.

Lemma departure_releases_once_witness :
  state parked_car = parked
  /\ targetSpace parked_car = Some (LotSpace 0)
  /\ (0 < List.length (spaces lot_1x1_taken))%nat
  /\ 0 < 0.001
  /\ (exists s s',
        spaces lot_1x1_taken !! 0%nat = Some s
        /\ occupied s = true
        /\ spaces (fst (Vehicle.update parked_car 0 lot_1x1_taken 0)) !! 0%nat = Some s'
        /\ occupied s' = false
        /\ ParkingLot.position s' = ParkingLot.position s)
  /\ targetSpace (snd (Vehicle.update parked_car 0 lot_1x1_taken 0))
     = Some (Detached (THREE.mkVector3 (-50) 0 0) 0)
  /\ state (snd (Vehicle.update parked_car 0 lot_1x1_taken 0)) = moving.
Proof.
  assert (H1 : state parked_car = parked) by reflexivity.
  assert (H2 : targetSpace parked_car = Some (LotSpace 0)) by reflexivity.
  assert (H3 : (0 < List.length (spaces lot_1x1_taken))%nat).
  { unfold lot_1x1_taken.
    rewrite (layout_length _ _ (setSpaceOccupied_layout _ _ _)), lot_1x1_spaces.
    cbn. lia. }
  assert (H4 : 0 < 0.001) by lra.
  assert (H5 : spaces lot_1x1_taken !! 0%nat
               = Some (mkSpace 0 0 0 (THREE.mkVector3 0 0 (-7)) PI true)).
  { unfold lot_1x1_taken. cbn [setSpaceOccupied includes].
    rewrite bool_decide_eq_true_2 by (rewrite lot_1x1_spaces; cbn; lia).
    cbn [spaces set_spaces]. rewrite lot_1x1_spaces. reflexivity. }
  destruct (departure_releases_once parked_car lot_1x1_taken 0 0 0 H1 H2 H3 H4)
    as ((s & s' & Hs & Hs' & Hocc & _ & _ & _ & Hpos & _) & _ & _ & Hb & Hc & _).
  split; [exact H1 |]. split; [exact H2 |]. split; [exact H3 |]. split; [exact H4 |].
  split.
  { exists s, s'. split; [exact Hs |].
    split; [rewrite H5 in Hs; injection Hs as <-; reflexivity |].
    split; [exact Hs' |]. split; [exact Hocc | exact Hpos]. }
  split; assumption.
Defined.

(** C6, as the code has it.  For a moving vehicle with a target, an
    elapsed time that is not negative and a speed within [0, maxSpeed],
    the speed after the tick is again within [0, maxSpeed]; when the
    vehicle is still moving, the new speed is either
    [max (speed - 2 * dt) 0.5] (deceleration), and then it differs from
    the old one by at most [2 * dt] provided the old speed was at least
    0.5 and is exactly 0.5 otherwise, or [min (speed + 2 * dt) maxSpeed]
    (acceleration), which differs from the old one by at most [2 * dt]. *)
Theorem speed_control_bounds
    (v : Vehicle.t) (dt : R) (lot : ParkingLot.t)
    (ref : SpaceRef) (tp : THREE.Vector3) (tr : R) :
  state v = moving ->
  targetSpace v = Some ref ->
  deref lot ref = Some (tp, tr) ->
  built v ->
  0 <= dt ->
  0 <= speed v <= maxSpeed v ->
  let v' := snd (updateMoving v dt lot) in
  maxSpeed v' = maxSpeed v
  /\ 0 <= speed v' <= maxSpeed v'
  /\ (state v' = moving ->
      (speed v' = Rmax (speed v - 2 * dt) 0.5
       /\ (0.5 <= speed v -> Rabs (speed v' - speed v) <= 2 * dt)
       /\ (speed v < 0.5 -> speed v' = 0.5))
      \/ (speed v' = Rmin (speed v + 2 * dt) (maxSpeed v)
          /\ Rabs (speed v' - speed v) <= 2 * dt)).
Proof.
  intros Hst Ht Hd (Hacc & _ & Hmax) Hdt Hsp. cbv zeta.
  assert (Hm : 3 <= maxSpeed v) by (rewrite Hmax; destruct (type v); lra).
  rewrite (updateMoving_eq v dt lot ref tp tr Ht Hd). cbv zeta.
  destruct (Rlt_dec _ 1) as [_ | _]; [| destruct (Rlt_dec _ 5) as [_ | _]];
    unfold advance, snap, steer; vehicle_fields; rewrite ?Hacc, ?Hst.
  - split; [reflexivity |]. split; [lra | discriminate].
  - unfold Math_max. split; [reflexivity |].
    split.
    + unfold Rmax. destruct (Rle_dec _ _); lra.
    + intros _. left. split; [reflexivity |]. split.
      * intros Hge. unfold Rmax. destruct (Rle_dec _ _); unfold Rabs;
          destruct (Rcase_abs _); lra.
      * intros Hlt. apply Rmax_right. lra.
  - unfold Math_min. split; [reflexivity |].
    split.
    + unfold Rmin. destruct (Rle_dec _ _); lra.
    + intros _. right. split; [reflexivity |].
      unfold Rmin. destruct (Rle_dec _ _); unfold Rabs; destruct (Rcase_abs _); lra.
Qed.

Lemma speed_control_bounds_witness :
  let v := heading_for (car_at 0 3 0) 1 in
  state v = moving
  /\ targetSpace v = Some (LotSpace 1)
  /\ deref lot_1x1 (LotSpace 1) = Some (THREE.mkVector3 0 0 7, 0)
  /\ built v
  /\ 0 <= 1 / 10
  /\ 0 <= speed v <= maxSpeed v
  /\ 0 <= speed (snd (updateMoving v (1 / 10) lot_1x1))
       <= maxSpeed (snd (updateMoving v (1 / 10) lot_1x1)).
Proof.
  cbv zeta.
  assert (H1 : state (heading_for (car_at 0 3 0) 1) = moving) by reflexivity.
  assert (H2 : targetSpace (heading_for (car_at 0 3 0) 1) = Some (LotSpace 1))
    by reflexivity.
  assert (H4 : built (heading_for (car_at 0 3 0) 1)).
  { unfold built. cbn. auto. }
  assert (H5 : 0 <= 1 / 10) by lra.
  assert (H6 : 0 <= speed (heading_for (car_at 0 3 0) 1)
               <= maxSpeed (heading_for (car_at 0 3 0) 1)).
  { cbn. lra. }
  destruct (speed_control_bounds (heading_for (car_at 0 3 0) 1) (1 / 10) lot_1x1
              (LotSpace 1) (THREE.mkVector3 0 0 7) 0 H1 H2 deref_lot_1x1_1 H4 H5 H6)
    as (_ & Hb & _).
  repeat split; try assumption; try apply H6; try apply Hb; try apply H4.
  exact deref_lot_1x1_1.
Defined.

(** C6, as stated, fails: a car at rest four units from its target is
    given the floor speed 1/2 by a tick of a tenth of a second, more
    than the [2 * (1/10)] the acceleration allows. *)
Lemma speed_jumps_to_floor :
  let v := heading_for (car_at 0 3 0) 1 in
  let v' := snd (updateMoving v (1 / 10) lot_1x1) in
  state v = moving
  /\ deref lot_1x1 (LotSpace 1) = Some (THREE.mkVector3 0 0 7, 0)
  /\ THREE.distanceTo (mesh_position v) (THREE.mkVector3 0 0 7) = 4
  /\ state v' = moving
  /\ speed v = 0
  /\ speed v' = 1 / 2
  /\ acceleration v * (1 / 10) = 1 / 5
  /\ ~ Rabs (speed v' - speed v) <= acceleration v * (1 / 10).
Proof.
  cbv zeta. rewrite car_at_fields.
  rewrite (updateMoving_eq (heading_for _ 1) (1 / 10) lot_1x1 (LotSpace 1) _ _ eq_refl
             deref_lot_1x1_1).
  cbv zeta. vehicle_fields.
  rewrite distanceToTarget_z_up by lra.
  rewrite distanceTo_z.
  destruct (Rlt_dec _ 1) as [H | _].
  { apply Rabs_lt_iff in H. lra. }
  destruct (Rlt_dec _ 5) as [_ | H].
  2:{ exfalso. apply H. apply Rabs_lt_iff. lra. }
  unfold advance, steer. vehicle_fields.
  assert (Hs : Math_max (0 - 2 * (1 / 10)) 0.5 = 1 / 2).
  { unfold Math_max. rewrite Rmax_right by lra. lra. }
  rewrite Hs.
  split; [reflexivity |].
  split; [exact deref_lot_1x1_1 |].
  split; [unfold Rabs; destruct (Rcase_abs _); lra |].
  split; [reflexivity |].
  split; [reflexivity |].
  split; [reflexivity |].
  split; [lra |].
  unfold Rabs. destruct (Rcase_abs _); lra.
Qed.

(** C7.  setSpaceOccupied writes the flag of the given space exactly
    when the space is one of the lot's: the flag of that space then is
    the given boolean, its row, column, side, position and rotation and
    every other space are as before; called with null or with an object
    that is not in [spaces] it changes nothing at all; in every case the
    number of spaces and the fields of the lot other than [spaces] and
    the material colour are kept.  The tint is not that of the given
    space alone: the colour is written to the material of the space's
    mesh, which is the one material every space mesh is built on, so
    after a call on a space of the lot the colour seen through every
    space is the colour for the given boolean, whatever the flag of
    that space.  On the lot of one row and one column, marking space 0
    occupied leaves space 1 free and turns the colour of space 1 from
    0x666666 to 0x555555. *)
Theorem setSpaceOccupied_tints_every_space :
  (forall (lot : ParkingLot.t) (ref : SpaceRef) (isOccupied : bool),
      includes lot ref = true ->
      let lot' := setSpaceOccupied lot (Some ref) isOccupied in
      exists i s s', ref = LotSpace i
        /\ spaces lot !! i = Some s
        /\ spaces lot' !! i = Some s'
        /\ occupied s' = isOccupied
        /\ row s' = row s /\ col s' = col s /\ side s' = side s
        /\ ParkingLot.position s' = ParkingLot.position s
        /\ ParkingLot.rotation s' = ParkingLot.rotation s
        /\ (forall j, j <> i -> spaces lot' !! j = spaces lot !! j)
        /\ (forall j, (j < List.length (spaces lot))%nat ->
              mesh_material_color lot' j
              = Some (if isOccupied then 0x555555%Z else 0x666666%Z)))
  /\ (forall (lot : ParkingLot.t) (space : option SpaceRef) (isOccupied : bool),
         (space = None \/ exists ref, space = Some ref /\ includes lot ref = false) ->
         setSpaceOccupied lot space isOccupied = lot)
  /\ (forall (lot : ParkingLot.t) (space : option SpaceRef) (isOccupied : bool),
         let lot' := setSpaceOccupied lot space isOccupied in
         List.length (spaces lot') = List.length (spaces lot)
         /\ set_spaces lot' (spaces lot) (spaceMaterial_color lot) = lot)
  /\ (let lot' := setSpaceOccupied lot_1x1 (Some (LotSpace 0)) true in
      (exists s0, spaces lot' !! 0%nat = Some s0 /\ occupied s0 = true)
      /\ (exists s1, spaces lot' !! 1%nat = Some s1 /\ occupied s1 = false)
      /\ mesh_material_color lot_1x1 1 = Some 0x666666%Z
      /\ mesh_material_color lot' 1 = Some 0x555555%Z).
Proof.
  split; [| split; [| split]].
  - intros lot ref isOccupied Hin. cbv zeta.
    destruct ref as [i | p r]; [| discriminate].
    cbn [setSpaceOccupied]. rewrite Hin.
    unfold includes in Hin. apply bool_decide_eq_true_1 in Hin.
    destruct (lookup_lt_is_Some_2 _ _ Hin) as [s Hs].
    exists i, s, (set_occupied isOccupied s).
    cbn [spaces set_spaces].
    split; [reflexivity |]. split; [exact Hs |].
    split; [rewrite list_lookup_alter_eq, Hs; reflexivity |].
    do 6 (split; [reflexivity |]).
    split.
    + intros j Hne. apply list_lookup_alter_ne. congruence.
    + intros j Hj. unfold mesh_material_color.
      cbn [spaces set_spaces spaceMaterial_color].
      destruct (lookup_lt_is_Some_2 (alter (set_occupied isOccupied) i (spaces lot)) j)
        as [t Ht]; [rewrite length_alter; exact Hj |].
      rewrite Ht. reflexivity.
  - intros lot space isOccupied [-> | (ref & -> & Hout)]; [reflexivity |].
    destruct ref as [i | p r]; [| reflexivity].
    cbn [setSpaceOccupied]. rewrite Hout. reflexivity.
  - intros lot space isOccupied. cbv zeta. split.
    + apply layout_length, setSpaceOccupied_layout.
    + destruct (setSpaceOccupied_cases lot space isOccupied) as [-> | (i & _ & _ & ->)];
        destruct lot; reflexivity.
  - cbv zeta. cbn [setSpaceOccupied includes].
    rewrite bool_decide_eq_true_2 by (rewrite lot_1x1_spaces; cbn; lia).
    unfold mesh_material_color. cbn [spaces set_spaces spaceMaterial_color].
    rewrite lot_1x1_spaces.
    split; [eexists; split; reflexivity |].
    split; [eexists; split; reflexivity |].
    split; reflexivity.
Qed.


End Claims.

Section SimulationClaims.

Import ParkingLot Vehicle ParkingSimulation.

(** C8.  Every constructed lot has [2 * rows * columns] spaces, where
    [rows] and [columns] are the lot's own fields (the configured values
    when these are positive, the defaults 3 and 5 otherwise); the count
    holds in every state of a session, and neither a frame of the
    simulation nor [setSpaceOccupied] adds or removes a space: the
    spaces, apart from their occupancy flags, stay what they were. *)
Theorem space_count_is_fixed :
  (forall options : ParkingLot.Options,
      List.length (spaces (ParkingLot.constructor options))
      = (2 * rows (ParkingLot.constructor options)
           * columns (ParkingLot.constructor options))%nat)
  /\ (forall (r c : nat) (w l a : option R),
         let lot := ParkingLot.constructor
                      (ParkingLot.mkOptions (Some (S r)) (Some (S c)) w l a) in
         rows lot = S r /\ columns lot = S c
         /\ List.length (spaces lot) = (2 * S r * S c)%nat)
  /\ (forall sim : ParkingSimulation.t,
         reachable sim ->
         List.length (spaces (parkingLot sim))
         = (2 * rows (parkingLot sim) * columns (parkingLot sim))%nat)
  /\ (forall (sim : ParkingSimulation.t) (dt : R) (random : nat -> R),
         layout (parkingLot (animate sim dt random)) = layout (parkingLot sim)
         /\ List.length (spaces (parkingLot (animate sim dt random)))
            = List.length (spaces (parkingLot sim)))
  /\ (forall (lot : ParkingLot.t) (space : option SpaceRef) (b : bool),
         layout (setSpaceOccupied lot space b) = layout lot
         /\ List.length (spaces (setSpaceOccupied lot space b))
            = List.length (spaces lot)).
Proof.
  split; [exact constructor_length |].
  split.
  { intros r c w l a lot. subst lot.
    pose proof (constructor_length (ParkingLot.mkOptions (Some (S r)) (Some (S c)) w l a)) as H.
    cbn [ParkingLot.constructor rows columns opt_rows opt_columns or_default_nat] in *.
    auto. }
  split.
  { intros sim Hreach. induction Hreach as [scenario | sim dt random _ IH _ | sim _ IH | sim scenario _ _].
    - apply constructor_length.
    - destruct (animate_layout sim dt random) as (Hl & Hr & Hc).
      rewrite (layout_length _ _ Hl), Hr, Hc. exact IH.
    - exact IH.
    - apply constructor_length. }
  split.
  { intros sim dt random.
    destruct (animate_layout sim dt random) as (Hl & _).
    split; [exact Hl | apply layout_length; exact Hl]. }
  intros lot space b.
  pose proof (setSpaceOccupied_layout lot space b) as Hl.
  split; [exact Hl | apply layout_length; exact Hl].
Qed.


(** C9.  After a stats recomputation [averageWaitTime] is the arithmetic
    mean, over all vehicles, of the wait contribution of each vehicle
    (its wait-timer if it is waiting, 0 otherwise), and it is 0 when
    there is no vehicle; this holds for updateStats itself and for the
    recomputation that ends every tick. *)
Theorem averageWaitTime_is_mean :
  (forall sim : ParkingSimulation.t,
      averageWaitTime (stats (updateStats sim))
      = mean (map waitContribution (vehicles sim)))
  /\ (forall (sim : ParkingSimulation.t) (dt : R) (random : nat -> R),
         averageWaitTime (stats (ParkingSimulation.update sim dt random))
         = mean (map waitContribution
                   (vehicles (ParkingSimulation.update sim dt random))))
  /\ (forall sim : ParkingSimulation.t,
         vehicles sim = [] -> averageWaitTime (stats (updateStats sim)) = 0).
Proof.
  split; [exact updateStats_average |].
  split.
  - intros sim dt random.
    destruct (update_is_updateStats sim dt random) as (sim1 & -> & Hv).
    cbn [updateStats vehicles] in Hv |- *.
    apply updateStats_average.
  - intros sim Hnil. rewrite updateStats_average, Hnil. reflexivity.
Qed.


End SimulationClaims.

Section ExitClaims.

Import ParkingLot Vehicle.

(** C10.  A vehicle bound for the exit that is less than one unit away
    from the exit point is not snapped: the tick leaves it [moving] and
    leaves the lot as it was.  (The distance the code tests is the one
    to the unit direction vector, which is at least 48 there.) *)
Theorem exit_never_reached
    (v : Vehicle.t) (dt : R) (lot : ParkingLot.t) :
  state v = moving ->
  targetSpace v = Some exitTarget ->
  THREE.distanceTo (mesh_position v) (THREE.mkVector3 (-50) 0 0) < 1 ->
  state (snd (updateMoving v dt lot)) = moving
  /\ fst (updateMoving v dt lot) = lot.
Proof.
  intros Hst Ht Hnear.
  rewrite (updateMoving_eq v dt lot exitTarget _ _ Ht eq_refl). cbv zeta.
  assert (Hfar : 5 <= distanceToTarget (mesh_position v) (THREE.mkVector3 (-50) 0 0)).
  { unfold distanceToTarget, THREE.distanceTo.
    pose proof (dirToTarget_x_bound (mesh_position v) (THREE.mkVector3 (-50) 0 0)) as Hb.
    set (d := dirToTarget _ _) in *.
    apply sqrt_lt_inv in Hnear; [| lra].
    unfold THREE.distanceToSquared in *. cbn [THREE.x THREE.y THREE.z] in *.
    cbv zeta in *.
    apply sqrt_ge_bound; [lra |].
    set (px := THREE.x (mesh_position v)) in *.
    set (py := THREE.y (mesh_position v)) in *.
    set (pz := THREE.z (mesh_position v)) in *.
    pose proof (Rle_0_sqr (py - 0)) as Hy. pose proof (Rle_0_sqr (pz - 0)) as Hz.
    pose proof (Rle_0_sqr (py - THREE.y d)) as Hy'.
    pose proof (Rle_0_sqr (pz - THREE.z d)) as Hz'.
    unfold Rsqr in *.
    assert (Hx : (px - -50) * (px - -50) < 1) by lra.
    assert (Hpx : px < -49).
    { destruct (Rlt_le_dec px (-49)) as [Hlt | Hge]; [exact Hlt | exfalso; nra]. }
    assert (Hfx : 48 * 48 <= (px - THREE.x d) * (px - THREE.x d)) by nra.
    lra. }
  destruct (Rlt_dec _ 1) as [H | _]; [lra |].
  destruct (Rlt_dec _ 5) as [H | _]; [lra |].
  unfold advance, steer. vehicle_fields. auto.
Qed.

Lemma exit_never_reached_witness :
  state leaving_car = moving
  /\ targetSpace leaving_car = Some exitTarget
  /\ THREE.distanceTo (mesh_position leaving_car) (THREE.mkVector3 (-50) 0 0) < 1
  /\ state (snd (updateMoving leaving_car 1 lot_1x1)) = moving
  /\ fst (updateMoving leaving_car 1 lot_1x1) = lot_1x1.
Proof.
  assert (H1 : state leaving_car = moving) by reflexivity.
  assert (H2 : targetSpace leaving_car = Some exitTarget) by reflexivity.
  assert (H3 : THREE.distanceTo (mesh_position leaving_car)
                 (THREE.mkVector3 (-50) 0 0) < 1).
  { unfold leaving_car. rewrite car_at_fields. vehicle_fields.
    rewrite (distanceTo_eq _ _ (1 / 2)); [lra | lra |].
    unfold THREE.distanceToSquared. cbn [THREE.x THREE.y THREE.z]. field. }
  destruct (exit_never_reached leaving_car 1 lot_1x1 H1 H2 H3) as [Ha Hb].
  repeat split; assumption.
Defined.

End ExitClaims.

(** * Further properties of the vehicle update *)
Section FurtherProperties.

Import ParkingLot Vehicle.

(** X1.  A moving vehicle with a target is snapped, and ends the tick
    [parked], exactly when the distance from its position to the
    normalised direction vector (what [targetPos] holds after
    [targetPos.sub(this.mesh.position).normalize()]) is below 1. *)
Theorem snap_test_uses_unit_direction
    (v : Vehicle.t) (dt : R) (lot : ParkingLot.t)
    (ref : SpaceRef) (tp : THREE.Vector3) (tr : R) :
  state v = moving ->
  targetSpace v = Some ref ->
  deref lot ref = Some (tp, tr) ->
  (state (snd (updateMoving v dt lot)) = parked
   <-> THREE.distanceTo (mesh_position v)
         (THREE.normalize (THREE.sub (THREE.clone tp) (mesh_position v))) < 1).
Proof.
  intros Hst Ht Hd.
  rewrite (updateMoving_eq v dt lot ref tp tr Ht Hd). cbv zeta.
  fold (dirToTarget (mesh_position v) tp).
  fold (distanceToTarget (mesh_position v) tp).
  destruct (Rlt_dec _ 1) as [Hlt | Hge]; [| destruct (Rlt_dec _ 5)];
    unfold advance, snap, steer; vehicle_fields; rewrite ?Hst.
  - split; [intros _; exact Hlt | reflexivity].
  - split; [discriminate | contradiction].
  - split; [discriminate | contradiction].
Qed.

Lemma snap_test_uses_unit_direction_witness :
  let v := heading_for (car_at 0 (-1) 0) 0 in
  state v = moving
  /\ targetSpace v = Some (LotSpace 0)
  /\ deref lot_1x1 (LotSpace 0) = Some (THREE.mkVector3 0 0 (-7), PI)
  /\ THREE.distanceTo (mesh_position v) (THREE.mkVector3 0 0 (-7)) = 6
  /\ state (snd (updateMoving v frame_time lot_1x1)) = parked.
Proof.
  cbv zeta.
  assert (H1 : state (heading_for (car_at 0 (-1) 0) 0) = moving) by reflexivity.
  assert (H2 : targetSpace (heading_for (car_at 0 (-1) 0) 0) = Some (LotSpace 0))
    by reflexivity.
  split; [exact H1 |]. split; [exact H2 |]. split; [exact deref_lot_1x1_0 |].
  split.
  { rewrite car_at_fields. vehicle_fields. rewrite distanceTo_z.
    unfold Rabs. destruct (Rcase_abs _); lra. }
  apply (snap_test_uses_unit_direction _ frame_time lot_1x1 (LotSpace 0) _ _
           H1 H2 deref_lot_1x1_0).
  rewrite car_at_fields. vehicle_fields.
  fold (dirToTarget (THREE.mkVector3 0 0 (-1)) (THREE.mkVector3 0 0 (-7))).
  rewrite dirToTarget_z_down by lra. rewrite distanceTo_z.
  apply Rabs_lt_iff. lra.
Defined.

(** X2.  A waiting vehicle is never moved and never changes the lot; a
    moving vehicle without a target that finds every space occupied
    becomes [waiting] where it stands. *)
Theorem waiting_vehicle_stays_put
    (v : Vehicle.t) (dt : R) (lot : ParkingLot.t) (rnd : R) :
  (state v = waiting ->
   mesh_position (snd (Vehicle.update v dt lot rnd)) = mesh_position v
   /\ mesh_rotation_y (snd (Vehicle.update v dt lot rnd)) = mesh_rotation_y v
   /\ fst (Vehicle.update v dt lot rnd) = lot)
  /\ (state v = moving ->
      targetSpace v = None ->
      (forall j s, spaces lot !! j = Some s -> occupied s = true) ->
      state (snd (Vehicle.update v dt lot rnd)) = waiting
      /\ mesh_position (snd (Vehicle.update v dt lot rnd)) = mesh_position v
      /\ fst (Vehicle.update v dt lot rnd) = lot).
Proof.
  split.
  - intros Hst. unfold Vehicle.update. rewrite Hst. cbv zeta.
    destruct (Rlt_dec 2 _); cbn [fst snd]; [| auto].
    unfold findParkingSpace.
    destruct (findAvailableSpace lot _); vehicle_fields; auto.
  - intros Hst Ht Hfull. unfold Vehicle.update, updateMoving. rewrite Hst, Ht.
    cbn [fst snd]. unfold findParkingSpace.
    destruct (findAvailableSpace_inv (mesh_position v) lot) as [cd Hinv].
    destruct (findAvailableSpace lot (mesh_position v)) as [i |].
    + cbn [closest_inv] in Hinv. destruct Hinv as (sk & Hk & Hfree & _).
      specialize (Hfull i sk Hk). congruence.
    + vehicle_fields. auto.
Qed.

(** X3.  After a stats recomputation [parkedVehicles] and
    [occupiedSpaces] both equal the number of vehicles whose state is
    [parked]; the flags of the lot are not consulted. *)
Theorem occupiedSpaces_counts_parked_vehicles (sim : ParkingSimulation.t) :
  ParkingSimulation.parkedVehicles
    (ParkingSimulation.stats (ParkingSimulation.updateStats sim))
  = count_parked (ParkingSimulation.vehicles sim)
  /\ ParkingSimulation.occupiedSpaces
       (ParkingSimulation.stats (ParkingSimulation.updateStats sim))
     = count_parked (ParkingSimulation.vehicles sim)
  /\ ParkingSimulation.parkingLot (ParkingSimulation.updateStats sim)
     = ParkingSimulation.parkingLot sim.
Proof.
  unfold ParkingSimulation.updateStats.
  cbn [ParkingSimulation.stats ParkingSimulation.parkedVehicles
       ParkingSimulation.occupiedSpaces ParkingSimulation.parkingLot].
  rewrite tally_parked. cbn [ParkingSimulation.t_parked]. auto.
Qed.

End FurtherProperties.

(** * The session invariant *)
Section SessionFacts.

Import ParkingLot Vehicle.

Lemma deref_layout (lot lot' : ParkingLot.t) (ref : SpaceRef) :
  layout lot' = layout lot -> deref lot' ref = deref lot ref.
Proof.
  intros Hl. destruct ref as [i | p r]; [| reflexivity].
  unfold deref.
  assert (Hi : layout lot' !! i = layout lot !! i) by (rewrite Hl; reflexivity).
  unfold layout in Hi. rewrite !list_lookup_fmap in Hi.
  destruct (spaces lot' !! i) as [s' |], (spaces lot !! i) as [s |];
    cbn in Hi; try discriminate; [| reflexivity].
  destruct s', s. unfold set_occupied in Hi. cbn in Hi.
  injection Hi as _ _ _ Hp Hr. cbn. rewrite Hp, Hr. reflexivity.
Qed.

Lemma vehicle_ok_make (lot : ParkingLot.t) (v : Vehicle.t) :
  built v -> 0 <= speed v <= maxSpeed v -> waitTime v = 0 -> state v <> waiting ->
  match targetSpace v with
  | None =>
      state v = moving /\ speed v = 0
      /\ mesh_position v = Vehicle.position v
      /\ mesh_rotation_y v = Vehicle.rotation v
  | Some ref =>
      exists tp tr, deref lot ref = Some (tp, tr)
        /\ (state v = parked ->
            speed v = 0 /\ mesh_position v = tp /\ mesh_rotation_y v = tr)
  end ->
  vehicle_ok lot v.
Proof. unfold vehicle_ok. auto. Qed.

Lemma vehicle_ok_layout (lot lot' : ParkingLot.t) (v : Vehicle.t) :
  layout lot' = layout lot -> vehicle_ok lot v -> vehicle_ok lot' v.
Proof.
  intros Hl (Hb & Hs & Hw & Hst & Ht).
  apply vehicle_ok_make; try assumption.
  destruct (targetSpace v) as [ref |]; [| exact Ht].
  destruct Ht as (tp & tr & Hd & Hp). exists tp, tr.
  rewrite (deref_layout lot lot' ref Hl). auto.
Qed.

Lemma built_maxSpeed (v : Vehicle.t) : built v -> 3 <= maxSpeed v.
Proof. intros (_ & _ & Hm). rewrite Hm. destruct (type v); lra. Qed.

Lemma update_ok_bound (v : Vehicle.t) (dt : R) (lot : ParkingLot.t) (rnd : R) :
  vehicle_ok lot v -> targetSpace v <> None -> 0 <= dt ->
  vehicle_ok (fst (Vehicle.update v dt lot rnd)) (snd (Vehicle.update v dt lot rnd))
  /\ targetSpace (snd (Vehicle.update v dt lot rnd)) <> None.
Proof.
  intros Hok Hsome Hdt.
  pose proof (update_layout v dt lot rnd) as (Hlay & _).
  destruct Hok as (Hb & Hs & Hw & Hst & Ht).
  pose proof (built_maxSpeed v Hb) as Hm3.
  destruct (targetSpace v) as [ref |] eqn:Href; [| congruence].
  destruct Ht as (tp & tr & Hd & Hp).
  assert (Hd' : deref (fst (Vehicle.update v dt lot rnd)) ref = Some (tp, tr))
    by (rewrite (deref_layout _ _ ref Hlay); exact Hd).
  revert Hd'. clear Hlay.
  unfold Vehicle.update. destruct (state v) eqn:Hstate; [| | congruence].
  - (* moving *)
    rewrite (updateMoving_eq v dt lot ref tp tr Href Hd). cbv zeta.
    destruct Hb as (Hacc & Hturn & Hmax).
    destruct (Rlt_dec _ 1); [| destruct (Rlt_dec _ 5)]; cbn [fst snd]; intros Hd';
      (split; [| unfold advance, snap, steer; vehicle_fields; rewrite Href; discriminate]).
    + apply vehicle_ok_make.
      * exact (conj Hacc (conj Hturn Hmax)).
      * unfold advance, snap, steer; vehicle_fields. lra.
      * exact Hw.
      * unfold advance, snap, steer; vehicle_fields. discriminate.
      * change (targetSpace (advance (snap (steer v dt tp) tp tr) dt)) with (targetSpace v).
        rewrite Href. exists tp, tr. split; [exact Hd' |]. intros _.
        split; [reflexivity |]. split; [apply snap_advance_position | reflexivity].
    + apply vehicle_ok_make.
      * exact (conj Hacc (conj Hturn Hmax)).
      * unfold advance, steer; vehicle_fields. rewrite Hacc.
        unfold Math_max, Rmax. destruct (Rle_dec _ _); lra.
      * exact Hw.
      * unfold advance, steer; vehicle_fields. congruence.
      * change (targetSpace (advance (set_speed (steer v dt tp) _) dt)) with (targetSpace v).
        rewrite Href. exists tp, tr. split; [exact Hd' |].
        unfold advance, steer; vehicle_fields. congruence.
    + apply vehicle_ok_make.
      * exact (conj Hacc (conj Hturn Hmax)).
      * unfold advance, steer; vehicle_fields. rewrite Hacc.
        unfold Math_min, Rmin. destruct (Rle_dec _ _); lra.
      * exact Hw.
      * unfold advance, steer; vehicle_fields. congruence.
      * change (targetSpace (advance (set_speed (steer v dt tp) _) dt)) with (targetSpace v).
        rewrite Href. exists tp, tr. split; [exact Hd' |].
        unfold advance, steer; vehicle_fields. congruence.
  - (* parked *)
    destruct (Rlt_dec rnd 0.001).
    + unfold leaveParking. rewrite Href. cbn [fst snd]. intros _.
      split; [| vehicle_fields; discriminate].
      apply vehicle_ok_make; try assumption.
      * vehicle_fields. discriminate.
      * vehicle_fields. exists (THREE.mkVector3 (-50) 0 0), 0.
        split; [reflexivity | discriminate].
    + cbn [fst snd]. intros _. split; [| rewrite Href; discriminate].
      apply vehicle_ok_make; try assumption; try congruence.
      rewrite Href. exists tp, tr. auto.
Qed.

Lemma update_ok_seek (v : Vehicle.t) (dt : R) (lot : ParkingLot.t) (rnd : R) :
  vehicle_ok lot v -> targetSpace v = None ->
  all_free lot -> spaces lot <> [] ->
  fst (Vehicle.update v dt lot rnd) = lot
  /\ vehicle_ok lot (snd (Vehicle.update v dt lot rnd))
  /\ (exists i, snd (Vehicle.update v dt lot rnd) = heading_for v i
                /\ findAvailableSpace lot (mesh_position v) = Some i).
Proof.
  intros (Hb & Hs & Hw & Hst & Ht) Hnone Hfree Hne.
  rewrite Hnone in Ht. destruct Ht as (Hmov & Hsp & Hpos & Hrot).
  unfold Vehicle.update, updateMoving. rewrite Hmov, Hnone. cbn [fst snd].
  unfold findParkingSpace.
  destruct (findAvailableSpace_inv (mesh_position v) lot) as [cd Hinv].
  destruct (findAvailableSpace lot (mesh_position v)) as [i |]; cbn [closest_inv] in Hinv.
  - destruct Hinv as (sk & Hk & _).
    split; [reflexivity |]. split; [| exists i; split; reflexivity].
    apply vehicle_ok_make; try assumption.
    + vehicle_fields. discriminate.
    + vehicle_fields. exists (ParkingLot.position sk), (ParkingLot.rotation sk).
      split; [unfold deref; rewrite Hk; reflexivity | discriminate].
  - exfalso. destruct Hinv as [_ Hall].
    destruct (spaces lot) as [| s l] eqn:Hsp'; [congruence |].
    assert (H0 : spaces lot !! 0%nat = Some s) by (rewrite Hsp'; reflexivity).
    specialize (Hall 0%nat s eq_refl).
    specialize (Hfree 0%nat s H0). congruence.
Qed.

Lemma frame_fresh (dt : R) (random : nat -> R) (lot : ParkingLot.t) (vs : list Vehicle.t) :
  all_free lot -> spaces lot <> [] ->
  Forall (vehicle_ok lot) vs ->
  Forall (fun v => targetSpace v = None) vs ->
  forall k,
    fst (ParkingSimulation.forEach_update dt random k lot vs) = lot
    /\ Forall (vehicle_ok lot) (snd (ParkingSimulation.forEach_update dt random k lot vs))
    /\ Forall (fun v => (exists i, targetSpace v = Some (LotSpace i)) /\ state v = moving)
         (snd (ParkingSimulation.forEach_update dt random k lot vs)).
Proof.
  intros Hfree Hne Hok Hnone.
  induction vs as [| v vs IH]; intros k; cbn [ParkingSimulation.forEach_update].
  - cbn. auto.
  - apply Forall_cons in Hok as [Hv Hok]. apply Forall_cons in Hnone as [Hn Hnone].
    destruct (update_ok_seek v dt lot (random k) Hv Hn Hfree Hne)
      as (Hl & Hv1 & i & Hi & _).
    destruct (Vehicle.update v dt lot (random k)) as [lot1 v1]. cbn [fst snd] in *.
    subst lot1. specialize (IH Hok Hnone (S k)).
    destruct (ParkingSimulation.forEach_update dt random (S k) lot vs) as [lot2 vs2].
    cbn [fst snd] in *. destruct IH as (-> & Hok2 & Ht2).
    split; [reflexivity |]. split; apply Forall_cons; auto.
    split; [| exact Ht2]. rewrite Hi. vehicle_fields. eauto.
Qed.

Lemma frame_bound (dt : R) (random : nat -> R) (vs : list Vehicle.t) :
  0 <= dt ->
  forall (k : nat) (lot : ParkingLot.t),
    Forall (vehicle_ok lot) vs ->
    Forall (fun v => targetSpace v <> None) vs ->
    Forall (vehicle_ok (fst (ParkingSimulation.forEach_update dt random k lot vs)))
      (snd (ParkingSimulation.forEach_update dt random k lot vs))
    /\ Forall (fun v => targetSpace v <> None)
         (snd (ParkingSimulation.forEach_update dt random k lot vs)).
Proof.
  intros Hdt. induction vs as [| v vs IH]; intros k lot Hok Hsome;
    cbn [ParkingSimulation.forEach_update].
  - cbn. auto.
  - apply Forall_cons in Hok as [Hv Hok]. apply Forall_cons in Hsome as [Hs Hsome].
    destruct (update_ok_bound v dt lot (random k) Hv Hs Hdt) as (Hv1 & Ht1).
    pose proof (update_layout v dt lot (random k)) as (Hlay1 & _).
    destruct (Vehicle.update v dt lot (random k)) as [lot1 v1]. cbn [fst snd] in *.
    assert (Hok1 : Forall (vehicle_ok lot1) vs).
    { eapply Forall_impl; [exact Hok |]. intros w. apply vehicle_ok_layout. exact Hlay1. }
    specialize (IH (S k) lot1 Hok1 Hsome).
    pose proof (forEach_update_layout dt random vs (S k) lot1) as Hlay2. cbv zeta in Hlay2.
    destruct (ParkingSimulation.forEach_update dt random (S k) lot1 vs) as [lot2 vs2].
    cbn [fst snd] in *. destruct IH as (Hok2 & Ht2), Hlay2 as (Hlay2 & _).
    split; apply Forall_cons; auto.
    split; [| exact Hok2]. apply (vehicle_ok_layout lot1); assumption.
Qed.

Lemma constructor_nonempty (options : ParkingLot.Options) :
  (2 <= List.length (spaces (ParkingLot.constructor options)))%nat.
Proof.
  rewrite constructor_length.
  unfold ParkingLot.constructor. cbn [rows columns].
  assert (Hr : (1 <= or_default_nat (opt_rows options) 3)%nat)
    by (unfold or_default_nat; destruct (opt_rows options) as [[| n] |]; lia).
  assert (Hc : (1 <= or_default_nat (opt_columns options) 5)%nat)
    by (unfold or_default_nat; destruct (opt_columns options) as [[| n] |]; lia).
  nia.
Qed.

Lemma constructor_all_free (options : ParkingLot.Options) :
  all_free (ParkingLot.constructor options).
Proof.
  intros j s Hs. destruct (occupied s) eqn:Hocc; [| reflexivity].
  exfalso. apply (constructor_not_flagged options j). exists s. auto.
Qed.

Lemma constructor_vehicle_ok (lot : ParkingLot.t) (options : Vehicle.Options) :
  vehicle_ok lot (Vehicle.constructor options)
  /\ targetSpace (Vehicle.constructor options) = None.
Proof.
  split; [| reflexivity].
  apply vehicle_ok_make.
  - apply constructor_built.
  - unfold Vehicle.constructor. vehicle_fields.
    destruct (match opt_type options with Some ty => ty | None => car end); lra.
  - reflexivity.
  - discriminate.
  - unfold Vehicle.constructor. vehicle_fields. cbn [Vehicle.position Vehicle.rotation].
    repeat split.
    destruct (match opt_position options with Some p => p | None => _ end); reflexivity.
Qed.

Lemma loadCurrentScenario_inv (scenario : ParkingSimulation.Scenario)
    (running : bool) (elapsed : R) (st : ParkingSimulation.Stats) :
  session_inv (ParkingSimulation.loadCurrentScenario scenario running elapsed st).
Proof.
  unfold session_inv, ParkingSimulation.loadCurrentScenario.
  cbn [ParkingSimulation.parkingLot ParkingSimulation.vehicles].
  split.
  { pose proof (constructor_nonempty (ParkingSimulation.sc_parkingLot scenario)) as H.
    intros Hnil. rewrite Hnil in H. cbn in H. lia. }
  split.
  { apply Forall_map. apply Forall_forall. intros vd _. apply constructor_vehicle_ok. }
  left. split; [apply constructor_all_free |].
  apply Forall_map. apply Forall_forall. intros vd _. reflexivity.
Qed.

Lemma reachable_session_inv (sim : ParkingSimulation.t) :
  ParkingSimulation.reachable sim -> session_inv sim.
Proof.
  intros Hreach.
  induction Hreach as [scenario | sim dt random _ IH Hdt | sim _ IH | sim scenario _ _].
  - apply loadCurrentScenario_inv.
  - unfold ParkingSimulation.animate.
    destruct (ParkingSimulation.isRunning sim); [| exact IH].
    destruct IH as (Hne & Hok & Hcase).
    unfold session_inv, ParkingSimulation.update.
    pose proof (forEach_update_layout dt random (ParkingSimulation.vehicles sim) 0%nat
                  (ParkingSimulation.parkingLot sim)) as Hlay. cbv zeta in Hlay.
    destruct Hcase as [[Hfree Hnone] | Hsome].
    + destruct (frame_fresh dt random _ _ Hfree Hne Hok Hnone 0%nat) as (Hl & Hok' & Hs').
      destruct (ParkingSimulation.forEach_update dt random 0
                  (ParkingSimulation.parkingLot sim) (ParkingSimulation.vehicles sim))
        as [lot' vs'].
      cbn [fst snd] in *. subst lot'.
      cbn [ParkingSimulation.updateStats ParkingSimulation.parkingLot
           ParkingSimulation.vehicles].
      split; [exact Hne |]. split; [exact Hok' |]. right.
      eapply Forall_impl; [exact Hs' |]. intros w [[i Hi] _]. congruence.
    + destruct (frame_bound dt random _ Hdt 0%nat _ Hok Hsome) as (Hok' & Hs').
      destruct (ParkingSimulation.forEach_update dt random 0
                  (ParkingSimulation.parkingLot sim) (ParkingSimulation.vehicles sim))
        as [lot' vs'].
      cbn [fst snd] in *.
      cbn [ParkingSimulation.updateStats ParkingSimulation.parkingLot
           ParkingSimulation.vehicles].
      destruct Hlay as (Hlay & _).
      split; [| auto].
      intros Hnil. apply Hne. apply layout_length in Hlay.
      rewrite Hnil in Hlay. cbn in Hlay.
      destruct (spaces (ParkingSimulation.parkingLot sim)); [reflexivity | discriminate].
  - exact IH.
  - apply loadCurrentScenario_inv.
Qed.

End SessionFacts.

Section SessionTheorems.

Import ParkingLot Vehicle.

Lemma session_inv_lookup (sim : ParkingSimulation.t) (k : nat) (v : Vehicle.t) :
  session_inv sim -> ParkingSimulation.vehicles sim !! k = Some v ->
  vehicle_ok (ParkingSimulation.parkingLot sim) v.
Proof.
  intros (_ & Hok & _) Hk. rewrite Forall_lookup in Hok. exact (Hok k v Hk).
Qed.

Lemma tally_waiting_zero (vs : list Vehicle.t) :
  Forall (fun v => state v <> waiting) vs ->
  forall acc,
    ParkingSimulation.t_waiting (fold_left ParkingSimulation.tally_step vs acc)
    = ParkingSimulation.t_waiting acc.
Proof.
  induction vs as [| v vs IH]; intros Hall acc; cbn [fold_left]; [reflexivity |].
  apply Forall_cons in Hall as [Hv Hall]. rewrite (IH Hall).
  unfold ParkingSimulation.tally_step, isParked, isMoving.
  destruct (state v); cbn; congruence.
Qed.

Lemma sum_waitContribution_zero (vs : list Vehicle.t) :
  Forall (fun v => state v <> waiting) vs ->
  sum_R (map waitContribution vs) = 0.
Proof.
  induction vs as [| v vs IH]; intros Hall; cbn [map sum_R fold_right]; [reflexivity |].
  apply Forall_cons in Hall as [Hv Hall]. fold (sum_R (map waitContribution vs)).
  rewrite (IH Hall). unfold waitContribution. destruct (state v); try lra. congruence.
Qed.

(** X11.  No vehicle of a session is ever [waiting], and every wait-timer
    is 0: the vehicles exist from the loading of the scenario, when no
    space is flagged, and the first running frame gives each of them a
    target.  So every stats recomputation yields [waitingVehicles = 0]
    and [averageWaitTime = 0]. *)
Theorem no_vehicle_ever_waits (sim : ParkingSimulation.t) :
  ParkingSimulation.reachable sim ->
  (forall k v, ParkingSimulation.vehicles sim !! k = Some v ->
     state v <> waiting /\ waitTime v = 0)
  /\ ParkingSimulation.waitingVehicles
       (ParkingSimulation.stats (ParkingSimulation.updateStats sim)) = 0%nat
  /\ ParkingSimulation.averageWaitTime
       (ParkingSimulation.stats (ParkingSimulation.updateStats sim)) = 0.
Proof.
  intros Hreach. apply reachable_session_inv in Hreach.
  assert (Hall : Forall (fun v => state v <> waiting) (ParkingSimulation.vehicles sim)).
  { destruct Hreach as (_ & Hok & _). eapply Forall_impl; [exact Hok |].
    intros v (_ & _ & _ & Hst & _). exact Hst. }
  split; [| split].
  - intros k v Hk. destruct (session_inv_lookup sim k v Hreach Hk) as (_ & _ & Hw & Hst & _).
    auto.
  - unfold ParkingSimulation.updateStats.
    cbn [ParkingSimulation.stats ParkingSimulation.waitingVehicles].
    rewrite tally_waiting_zero by exact Hall. reflexivity.
  - rewrite updateStats_average. unfold mean.
    destruct (map waitContribution (ParkingSimulation.vehicles sim)) eqn:Hm; [reflexivity |].
    rewrite <- Hm, sum_waitContribution_zero by exact Hall. lra.
Qed.

Lemma no_vehicle_ever_waits_witness :
  ParkingSimulation.reachable two_cars_after_two_frames
  /\ ParkingSimulation.waitingVehicles
       (ParkingSimulation.stats (ParkingSimulation.updateStats two_cars_after_two_frames))
     = 0%nat
  /\ ParkingSimulation.averageWaitTime
       (ParkingSimulation.stats (ParkingSimulation.updateStats two_cars_after_two_frames))
     = 0.
Proof.
  destruct two_cars_trace as (Hreach & _).
  split; [exact Hreach |].
  exact (proj2 (no_vehicle_ever_waits two_cars_after_two_frames Hreach)).
Defined.

(** X13.  In every state of a session a parked vehicle has a target,
    stands exactly on the target's position with the target's rotation,
    and has speed 0. *)
Theorem parked_vehicle_stands_on_target
    (sim : ParkingSimulation.t) (k : nat) (v : Vehicle.t) :
  ParkingSimulation.reachable sim ->
  ParkingSimulation.vehicles sim !! k = Some v ->
  state v = parked ->
  exists ref tp tr,
    targetSpace v = Some ref
    /\ deref (ParkingSimulation.parkingLot sim) ref = Some (tp, tr)
    /\ mesh_position v = tp
    /\ mesh_rotation_y v = tr
    /\ speed v = 0.
Proof.
  intros Hreach Hk Hp. apply reachable_session_inv in Hreach.
  destruct (session_inv_lookup sim k v Hreach Hk) as (_ & _ & _ & _ & Ht).
  destruct (targetSpace v) as [ref |].
  - destruct Ht as (tp & tr & Hd & Hpos). destruct (Hpos Hp) as (Hs & Hm & Hr).
    exists ref, tp, tr. auto.
  - destruct Ht as (Hm & _). congruence.
Qed.

Lemma parked_vehicle_stands_on_target_witness :
  ParkingSimulation.reachable two_cars_after_two_frames
  /\ exists v,
       ParkingSimulation.vehicles two_cars_after_two_frames !! 0%nat = Some v
       /\ state v = parked
       /\ exists ref tp tr,
            targetSpace v = Some ref
            /\ deref (ParkingSimulation.parkingLot two_cars_after_two_frames) ref
               = Some (tp, tr)
            /\ mesh_position v = tp /\ mesh_rotation_y v = tr /\ speed v = 0.
Proof.
  destruct two_cars_trace as (Hreach & v1 & v2 & H1 & _ & [Hp _] & _).
  split; [exact Hreach |]. exists v1. split; [exact H1 |]. split; [exact Hp |].
  exact (parked_vehicle_stands_on_target two_cars_after_two_frames 0 v1 Hreach H1 Hp).
Defined.

(** X12.  In every state of a session the target of a vehicle designates
    an object: a space of the current lot (its index is below
    [spaces.length]) or an exit object. *)
Theorem target_references_resolve
    (sim : ParkingSimulation.t) (k : nat) (v : Vehicle.t) (ref : SpaceRef) :
  ParkingSimulation.reachable sim ->
  ParkingSimulation.vehicles sim !! k = Some v ->
  targetSpace v = Some ref ->
  (exists tp tr, deref (ParkingSimulation.parkingLot sim) ref = Some (tp, tr))
  /\ (forall i, ref = LotSpace i ->
        (i < List.length (spaces (ParkingSimulation.parkingLot sim)))%nat).
Proof.
  intros Hreach Hk Ht. apply reachable_session_inv in Hreach.
  destruct (session_inv_lookup sim k v Hreach Hk) as (_ & _ & _ & _ & Hm).
  rewrite Ht in Hm. destruct Hm as (tp & tr & Hd & _).
  split; [eauto |].
  intros i ->. unfold deref in Hd.
  destruct (spaces (ParkingSimulation.parkingLot sim) !! i) eqn:Hi; [| discriminate].
  eapply lookup_lt_Some. exact Hi.
Qed.

Lemma target_references_resolve_witness :
  ParkingSimulation.reachable two_cars_after_two_frames
  /\ exists v,
       ParkingSimulation.vehicles two_cars_after_two_frames !! 1%nat = Some v
       /\ targetSpace v = Some (LotSpace 0)
       /\ (0 < List.length
                 (spaces (ParkingSimulation.parkingLot two_cars_after_two_frames)))%nat.
Proof.
  destruct two_cars_trace as (Hreach & v1 & v2 & _ & H2 & _ & [_ Ht] & _).
  split; [exact Hreach |]. exists v2. split; [exact H2 |]. split; [exact Ht |].
  exact (proj2 (target_references_resolve two_cars_after_two_frames 1 v2 (LotSpace 0)
                  Hreach H2 Ht) 0%nat eq_refl).
Defined.

(** X14.  In every state of a session the speed of every vehicle lies
    within [0, maxSpeed], with [maxSpeed] 5 for a car and 3 for a truck,
    acceleration 2 and turn speed PI/4; a vehicle that is not [moving],
    and a vehicle without a target, has speed 0. *)
Theorem speed_stays_in_range
    (sim : ParkingSimulation.t) (k : nat) (v : Vehicle.t) :
  ParkingSimulation.reachable sim ->
  ParkingSimulation.vehicles sim !! k = Some v ->
  0 <= speed v <= maxSpeed v
  /\ maxSpeed v = match type v with car => 5 | truck => 3 end
  /\ acceleration v = 2
  /\ turnSpeed v = PI / 4
  /\ (state v <> moving -> speed v = 0)
  /\ (targetSpace v = None -> speed v = 0).
Proof.
  intros Hreach Hk. apply reachable_session_inv in Hreach.
  destruct (session_inv_lookup sim k v Hreach Hk) as ((Ha & Hts & Hm) & Hs & _ & Hst & Ht).
  repeat split; try assumption; try apply Hs.
  - intros Hnm. destruct (targetSpace v) as [ref |].
    + destruct Ht as (tp & tr & _ & Hp). destruct (state v); try congruence.
      apply Hp. reflexivity.
    + apply Ht.
  - intros Hn. rewrite Hn in Ht. apply Ht.
Qed.

Lemma speed_stays_in_range_witness :
  ParkingSimulation.reachable two_cars_after_two_frames
  /\ exists v,
       ParkingSimulation.vehicles two_cars_after_two_frames !! 0%nat = Some v
       /\ 0 <= speed v <= maxSpeed v.
Proof.
  destruct two_cars_trace as (Hreach & v1 & v2 & H1 & _).
  split; [exact Hreach |]. exists v1. split; [exact H1 |].
  exact (proj1 (speed_stays_in_range two_cars_after_two_frames 0 v1 Hreach H1)).
Defined.

(** X10.  While some vehicle of a session has no target, the session is
    fresh: no space is flagged and every vehicle is [moving] without a
    target at the pose it was constructed with.  One update then leaves
    the lot as it is and gives every vehicle a space of the lot as its
    target, all still [moving]. *)
Theorem targets_are_given_in_one_frame
    (sim : ParkingSimulation.t) (k : nat) (v : Vehicle.t) :
  ParkingSimulation.reachable sim ->
  ParkingSimulation.vehicles sim !! k = Some v ->
  targetSpace v = None ->
  all_free (ParkingSimulation.parkingLot sim)
  /\ (forall j w, ParkingSimulation.vehicles sim !! j = Some w ->
        targetSpace w = None /\ state w = moving
        /\ mesh_position w = Vehicle.position w
        /\ mesh_rotation_y w = Vehicle.rotation w)
  /\ (forall dt random,
        ParkingSimulation.parkingLot (ParkingSimulation.update sim dt random)
        = ParkingSimulation.parkingLot sim
        /\ forall j w',
             ParkingSimulation.vehicles (ParkingSimulation.update sim dt random) !! j
             = Some w' ->
             (exists i, targetSpace w' = Some (LotSpace i)) /\ state w' = moving).
Proof.
  intros Hreach Hk Hn. apply reachable_session_inv in Hreach.
  destruct Hreach as (Hne & Hok & [[Hfree Hnone] | Hsome]).
  2:{ rewrite Forall_lookup in Hsome. exfalso. exact (Hsome k v Hk Hn). }
  split; [exact Hfree |]. split.
  - intros j w Hj. rewrite Forall_lookup in Hok, Hnone.
    specialize (Hnone j w Hj). cbv beta in Hnone.
    destruct (Hok j w Hj) as (_ & _ & _ & _ & Ht). rewrite Hnone in Ht.
    destruct Ht as (Hm & _ & Hp & Hr). auto.
  - intros dt random. unfold ParkingSimulation.update.
    destruct (frame_fresh dt random _ _ Hfree Hne Hok Hnone 0%nat) as (Hl & _ & Hs').
    destruct (ParkingSimulation.forEach_update dt random 0
                (ParkingSimulation.parkingLot sim) (ParkingSimulation.vehicles sim))
      as [lot' vs'].
    cbn [fst snd] in *.
    cbn [ParkingSimulation.updateStats ParkingSimulation.parkingLot
         ParkingSimulation.vehicles].
    split; [exact Hl |]. intros j w' Hj. rewrite Forall_lookup in Hs'. exact (Hs' j w' Hj).
Qed.

Lemma targets_are_given_in_one_frame_witness :
  ParkingSimulation.reachable (ParkingSimulation.init two_cars)
  /\ ParkingSimulation.vehicles (ParkingSimulation.init two_cars) !! 0%nat
     = Some (car_at 0 (-1) 0)
  /\ targetSpace (car_at 0 (-1) 0) = None
  /\ all_free (ParkingSimulation.parkingLot (ParkingSimulation.init two_cars)).
Proof.
  assert (Hreach : ParkingSimulation.reachable (ParkingSimulation.init two_cars))
    by apply ParkingSimulation.reach_init.
  assert (H0 : ParkingSimulation.vehicles (ParkingSimulation.init two_cars) !! 0%nat
               = Some (car_at 0 (-1) 0)) by reflexivity.
  assert (Hn : targetSpace (car_at 0 (-1) 0) = None) by reflexivity.
  split; [exact Hreach |]. split; [exact H0 |]. split; [exact Hn |].
  exact (proj1 (targets_are_given_in_one_frame (ParkingSimulation.init two_cars) 0
                  (car_at 0 (-1) 0) Hreach H0 Hn)).
Defined.

End SessionTheorems.

Section MoreSimulationFacts.

Import ParkingLot Vehicle.

Lemma tally_total (vs : list Vehicle.t) :
  forall acc,
    (ParkingSimulation.t_parked (fold_left ParkingSimulation.tally_step vs acc)
     + ParkingSimulation.t_moving (fold_left ParkingSimulation.tally_step vs acc)
     + ParkingSimulation.t_waiting (fold_left ParkingSimulation.tally_step vs acc)
     = ParkingSimulation.t_parked acc + ParkingSimulation.t_moving acc
       + ParkingSimulation.t_waiting acc + List.length vs)%nat.
Proof.
  induction vs as [| v vs IH]; intros acc; cbn [fold_left List.length]; [lia |].
  rewrite IH. unfold ParkingSimulation.tally_step.
  destruct (isParked v); [| destruct (isMoving v)]; cbn; lia.
Qed.

Lemma sim_update_lengths (sim : ParkingSimulation.t) (dt : R) (random : nat -> R) :
  List.length (ParkingSimulation.vehicles (ParkingSimulation.update sim dt random))
  = List.length (ParkingSimulation.vehicles sim)
  /\ ParkingSimulation.totalVehicles (ParkingSimulation.stats (ParkingSimulation.update sim dt random))
     = ParkingSimulation.totalVehicles (ParkingSimulation.stats sim)
  /\ ParkingSimulation.totalSpaces (ParkingSimulation.stats (ParkingSimulation.update sim dt random))
     = ParkingSimulation.totalSpaces (ParkingSimulation.stats sim).
Proof.
  unfold ParkingSimulation.update.
  pose proof (forEach_update_length dt random (ParkingSimulation.vehicles sim) 0%nat
                (ParkingSimulation.parkingLot sim)) as Hlen.
  destruct (ParkingSimulation.forEach_update dt random 0
              (ParkingSimulation.parkingLot sim) (ParkingSimulation.vehicles sim))
    as [lot' vs'].
  cbn [snd] in Hlen. cbn. auto.
Qed.

Lemma reachable_totals (sim : ParkingSimulation.t) :
  ParkingSimulation.reachable sim ->
  ParkingSimulation.totalVehicles (ParkingSimulation.stats sim)
  = List.length (ParkingSimulation.vehicles sim)
  /\ ParkingSimulation.totalSpaces (ParkingSimulation.stats sim)
     = List.length (spaces (ParkingSimulation.parkingLot sim)).
Proof.
  intros Hreach.
  induction Hreach as [scenario | sim dt random _ IH _ | sim _ IH | sim scenario _ _].
  - split; reflexivity.
  - unfold ParkingSimulation.animate.
    destruct (ParkingSimulation.isRunning sim); [| exact IH].
    destruct (sim_update_lengths sim dt random) as (Hl & Hv & Hs).
    destruct (sim_update_layout sim dt random) as (Hlay & _).
    rewrite Hv, Hs, Hl, (layout_length _ _ Hlay). exact IH.
  - exact IH.
  - split; reflexivity.
Qed.

Lemma reachable_space_count (sim : ParkingSimulation.t) :
  ParkingSimulation.reachable sim ->
  List.length (spaces (ParkingSimulation.parkingLot sim))
  = (2 * rows (ParkingSimulation.parkingLot sim)
       * columns (ParkingSimulation.parkingLot sim))%nat.
Proof.
  intros Hreach.
  induction Hreach as [scenario | sim dt random _ IH _ | sim _ IH | sim scenario _ _].
  - apply constructor_length.
  - destruct (animate_layout sim dt random) as (Hl & Hr & Hc).
    rewrite (layout_length _ _ Hl), Hr, Hc. exact IH.
  - exact IH.
  - apply constructor_length.
Qed.

(** X15.  After the update of a session state the three state counts
    add up to [totalVehicles], which is the number of vehicles;
    [totalSpaces] is [2 * rows * columns]; [occupiedSpaces] equals
    [parkedVehicles]. *)
Theorem stats_count_every_vehicle_once
    (sim : ParkingSimulation.t) (dt : R) (random : nat -> R) :
  ParkingSimulation.reachable sim ->
  let st := ParkingSimulation.stats (ParkingSimulation.update sim dt random) in
  (ParkingSimulation.parkedVehicles st + ParkingSimulation.movingVehicles st
   + ParkingSimulation.waitingVehicles st
   = ParkingSimulation.totalVehicles st)%nat
  /\ ParkingSimulation.totalVehicles st = List.length (ParkingSimulation.vehicles sim)
  /\ ParkingSimulation.totalSpaces st
     = (2 * rows (ParkingSimulation.parkingLot sim)
          * columns (ParkingSimulation.parkingLot sim))%nat
  /\ ParkingSimulation.occupiedSpaces st = ParkingSimulation.parkedVehicles st.
Proof.
  intros Hreach. cbv zeta.
  destruct (reachable_totals sim Hreach) as (Hv & Hs).
  pose proof (reachable_space_count sim Hreach) as Hc.
  destruct (sim_update_lengths sim dt random) as (Hlen & Htv & Hts).
  rewrite Htv, Hts, Hv, Hs, Hc.
  destruct (update_is_updateStats sim dt random) as (sim1 & Heq & _).
  rewrite Heq in Hlen |- *.
  cbn [ParkingSimulation.updateStats ParkingSimulation.vehicles] in Hlen.
  cbn [ParkingSimulation.updateStats ParkingSimulation.stats
       ParkingSimulation.parkedVehicles ParkingSimulation.movingVehicles
       ParkingSimulation.waitingVehicles ParkingSimulation.occupiedSpaces].
  pose proof (tally_total (ParkingSimulation.vehicles sim1)
                (ParkingSimulation.mkTally 0 0 0 0)) as Ht.
  cbn [ParkingSimulation.t_parked ParkingSimulation.t_moving
       ParkingSimulation.t_waiting] in Ht.
  repeat split; try reflexivity. lia.
Qed.

Lemma stats_count_every_vehicle_once_witness :
  let st := ParkingSimulation.stats
              (ParkingSimulation.update (ParkingSimulation.init two_cars)
                 frame_time no_draw) in
  ParkingSimulation.reachable (ParkingSimulation.init two_cars)
  /\ (ParkingSimulation.parkedVehicles st + ParkingSimulation.movingVehicles st
      + ParkingSimulation.waitingVehicles st
      = ParkingSimulation.totalVehicles st)%nat.
Proof.
  cbv zeta.
  assert (Hreach : ParkingSimulation.reachable (ParkingSimulation.init two_cars))
    by apply ParkingSimulation.reach_init.
  split; [exact Hreach |].
  exact (proj1 (stats_count_every_vehicle_once (ParkingSimulation.init two_cars)
                  frame_time no_draw Hreach)).
Defined.

(** X9.  A tick of a vehicle with a target either snaps it onto the
    target's position, or moves it by exactly [speed * deltaTime] (the
    speed the tick has set) without changing its height. *)
Theorem tick_advances_by_speed
    (v : Vehicle.t) (dt : R) (lot : ParkingLot.t)
    (ref : SpaceRef) (tp : THREE.Vector3) (tr : R) :
  targetSpace v = Some ref ->
  deref lot ref = Some (tp, tr) ->
  built v ->
  0 <= dt ->
  0 <= speed v ->
  let v' := snd (updateMoving v dt lot) in
  (THREE.distanceTo (mesh_position v') (mesh_position v) = speed v' * dt
   /\ THREE.y (mesh_position v') = THREE.y (mesh_position v))
  \/ (distanceToTarget (mesh_position v) tp < 1 /\ mesh_position v' = tp).
Proof.
  intros Ht Hd (Hacc & _ & Hmax) Hdt Hsp. cbv zeta.
  assert (Hm : 3 <= maxSpeed v) by (rewrite Hmax; destruct (type v); lra).
  rewrite (updateMoving_eq v dt lot ref tp tr Ht Hd). cbv zeta.
  destruct (Rlt_dec _ 1) as [Hlt | _].
  { right. split; [exact Hlt | apply snap_advance_position]. }
  left.
  assert (Hgen : forall s, 0 <= s ->
            THREE.distanceTo
              (mesh_position (advance (set_speed (steer v dt tp) s) dt)) (mesh_position v)
            = s * dt
            /\ THREE.y (mesh_position (advance (set_speed (steer v dt tp) s) dt))
               = THREE.y (mesh_position v)).
  { intros s Hs. unfold advance, steer. vehicle_fields.
    rewrite moveDirection_eq.
    set (a := mesh_rotation_y v + turnAmount v dt tp).
    split; [| unfold THREE.add, THREE.multiplyScalar; cbn [THREE.x THREE.y THREE.z]; ring].
    unfold THREE.distanceTo. apply sqrt_of_square; [nra |].
    unfold THREE.distanceToSquared, THREE.add, THREE.multiplyScalar.
    cbn [THREE.x THREE.y THREE.z]. cbv zeta.
    pose proof (sin2_cos2 a) as Hsc. unfold Rsqr in Hsc.
    replace (s * dt * (s * dt)) with (s * dt * (s * dt) * (sin a * sin a + cos a * cos a))
      by (rewrite Hsc; ring).
    ring. }
  destruct (Rlt_dec _ 5); cbn [snd].
  - apply Hgen. unfold Math_max, Rmax. destruct (Rle_dec _ _); lra.
  - apply Hgen. rewrite Hacc. unfold Math_min, Rmin. destruct (Rle_dec _ _); nra.
Qed.

Lemma tick_advances_by_speed_witness :
  let v := heading_for (car_at 0 3 0) 1 in
  let v' := snd (updateMoving v 1 lot_1x1) in
  targetSpace v = Some (LotSpace 1)
  /\ deref lot_1x1 (LotSpace 1) = Some (THREE.mkVector3 0 0 7, 0)
  /\ built v
  /\ 0 <= 1
  /\ 0 <= speed v
  /\ ((THREE.distanceTo (mesh_position v') (mesh_position v) = speed v' * 1
       /\ THREE.y (mesh_position v') = THREE.y (mesh_position v))
      \/ (distanceToTarget (mesh_position v) (THREE.mkVector3 0 0 7) < 1
          /\ mesh_position v' = THREE.mkVector3 0 0 7)).
Proof.
  cbv zeta.
  assert (H1 : targetSpace (heading_for (car_at 0 3 0) 1) = Some (LotSpace 1))
    by reflexivity.
  assert (H3 : built (heading_for (car_at 0 3 0) 1)) by (unfold built; cbn; auto).
  assert (H4 : 0 <= 1) by lra.
  assert (H5 : 0 <= speed (heading_for (car_at 0 3 0) 1)) by (cbn; lra).
  split; [exact H1 |]. split; [exact deref_lot_1x1_1 |]. split; [exact H3 |].
  split; [exact H4 |]. split; [exact H5 |].
  exact (tick_advances_by_speed (heading_for (car_at 0 3 0) 1) 1 lot_1x1 (LotSpace 1)
           (THREE.mkVector3 0 0 7) 0 H1 deref_lot_1x1_1 H3 H4 H5).
Defined.

End MoreSimulationFacts.

(** * The layout of the lot *)
Section LayoutFacts.

Import ParkingLot.

Lemma for_range_append {A : Type} (f : nat -> list A) (body : nat -> list A -> list A) :
  (forall i acc, body i acc = acc ++ f i) ->
  forall n acc, for_range n body acc = acc ++ flat_map f (seq 0 n).
Proof.
  intros Hbody n. unfold for_range. generalize (seq 0 n) as ixs.
  induction ixs as [| i ixs IH]; intros acc; cbn [fold_left flat_map].
  - rewrite app_nil_r. reflexivity.
  - rewrite IH, Hbody, <- app_assoc. reflexivity.
Qed.

Lemma flat_map_uniform_length {A : Type} (f : nat -> list A) (k : nat) (l : list nat) :
  (forall i, List.length (f i) = k) ->
  List.length (flat_map f l) = (List.length l * k)%nat.
Proof.
  intros Hk. induction l as [| i l IH]; cbn [flat_map List.length]; [reflexivity |].
  rewrite length_app, IH, Hk. lia.
Qed.

Lemma lookup_flat_map_seq {A : Type} (f : nat -> list A) (k n i j : nat) :
  (forall m, List.length (f m) = k) ->
  (i < n)%nat -> (j < k)%nat ->
  flat_map f (seq 0 n) !! (i * k + j)%nat = f i !! j.
Proof.
  intros Hk. induction n as [| n IH]; intros Hi Hj; [lia |].
  rewrite seq_S, flat_map_app. cbn [flat_map Nat.add]. rewrite app_nil_r.
  assert (Hlen : List.length (flat_map f (seq 0 n)) = (n * k)%nat)
    by (rewrite (flat_map_uniform_length f k) by exact Hk; rewrite length_seq; reflexivity).
  destruct (decide (i = n)) as [-> | Hne].
  - rewrite lookup_app_r by lia. rewrite Hlen. f_equal. lia.
  - rewrite lookup_app_l by nia. apply IH; lia.
Qed.

Lemma lookup_flat_map_singleton {A : Type} (g : nat -> A) (n i : nat) :
  (i < n)%nat -> flat_map (fun m => [g m]) (seq 0 n) !! i = Some (g i).
Proof.
  intros Hi.
  pose proof (lookup_flat_map_seq (fun m => [g m]) 1 n i 0 (fun _ => eq_refl) Hi
                ltac:(lia)) as H.
  replace (i * 1 + 0)%nat with i in H by lia. exact H.
Qed.

Lemma createParkingSpaces_enum (r c : nat) (w len a tw : R) (l0 : list Space) :
  createParkingSpaces r c w len a tw l0
  = l0 ++ flat_map (fun side =>
            flat_map (fun row =>
              flat_map (fun col =>
                [mkSpace row col side
                   (THREE.mkVector3
                      ((INR col * w) - (tw / 2) + (w / 2)) 0
                      ((if Nat.eqb side 0 then - a / 2 - len / 2 else a / 2 + len / 2)
                       + (INR row * len * (if Nat.eqb side 0 then -1 else 1))))
                   (if Nat.eqb side 0 then PI else 0) false])
                (seq 0 c))
              (seq 0 r))
            (seq 0 2).
Proof.
  unfold createParkingSpaces.
  apply for_range_append. intros side acc1.
  apply for_range_append. intros row acc2.
  apply for_range_append. intros col acc3.
  reflexivity.
Qed.

Lemma constructor_lookup (options : ParkingLot.Options) (side row col : nat) :
  let lot := ParkingLot.constructor options in
  (side < 2)%nat -> (row < rows lot)%nat -> (col < columns lot)%nat ->
  spaces lot !! space_index lot side row col = Some (space_at lot side row col).
Proof.
  cbv zeta. intros Hs Hr Hc.
  unfold space_index, space_at.
  set (lot := ParkingLot.constructor options) in *.
  assert (Hsp : spaces lot
                = createParkingSpaces (rows lot) (columns lot) (spaceWidth lot)
                    (spaceLength lot) (aisleWidth lot) (totalWidth lot) [])
    by reflexivity.
  rewrite Hsp, createParkingSpaces_enum. cbn [app].
  rewrite <- Nat.add_assoc.
  rewrite (lookup_flat_map_seq _ (rows lot * columns lot) 2 side (row * columns lot + col)).
  - rewrite (lookup_flat_map_seq _ (columns lot) (rows lot) row col); try assumption.
    + apply (lookup_flat_map_singleton
               (fun col0 => mkSpace row col0 side _ _ false)). exact Hc.
    + intros m. rewrite (flat_map_uniform_length _ 1) by reflexivity.
      rewrite length_seq. lia.
  - intros m. rewrite (flat_map_uniform_length _ (columns lot)).
    + rewrite length_seq. reflexivity.
    + intros m'. rewrite (flat_map_uniform_length _ 1) by reflexivity.
      rewrite length_seq. lia.
  - exact Hs.
  - nia.
Qed.

End LayoutFacts.

Section LayoutTheorems.

Import ParkingLot.

Lemma constructor_dims_positive (options : ParkingLot.Options) :
  (1 <= rows (ParkingLot.constructor options))%nat
  /\ (1 <= columns (ParkingLot.constructor options))%nat.
Proof.
  unfold ParkingLot.constructor. cbn [rows columns]. unfold or_default_nat.
  destruct (opt_rows options) as [[| n] |], (opt_columns options) as [[| m] |]; lia.
Qed.

Lemma constructor_lookup_inv (options : ParkingLot.Options) (j : nat) (s : Space) :
  let lot := ParkingLot.constructor options in
  spaces lot !! j = Some s ->
  exists side row col,
    (side < 2)%nat /\ (row < rows lot)%nat /\ (col < columns lot)%nat
    /\ j = space_index lot side row col
    /\ s = space_at lot side row col.
Proof.
  cbv zeta. intros Hj.
  set (lot := ParkingLot.constructor options) in *.
  destruct (constructor_dims_positive options) as (Hr1 & Hc1). fold lot in Hr1, Hc1.
  pose proof (lookup_lt_Some _ _ _ Hj) as Hlt.
  unfold lot in Hlt. rewrite constructor_length in Hlt. fold lot in Hlt.
  set (Rn := rows lot) in *. set (Cn := columns lot) in *.
  exists (j / (Rn * Cn))%nat, ((j mod (Rn * Cn)) / Cn)%nat, (j mod Cn)%nat.
  assert (HRC : (Rn * Cn <> 0)%nat) by nia.
  assert (HC : (Cn <> 0)%nat) by lia.
  assert (Hside : (j / (Rn * Cn) < 2)%nat)
    by (apply Nat.Div0.div_lt_upper_bound; lia).
  assert (Hrow : ((j mod (Rn * Cn)) / Cn < Rn)%nat).
  { apply Nat.Div0.div_lt_upper_bound.
    pose proof (Nat.mod_upper_bound j (Rn * Cn) HRC). lia. }
  assert (Hcol : (j mod Cn < Cn)%nat) by (apply Nat.mod_upper_bound; exact HC).
  assert (Hidx : j = space_index lot (j / (Rn * Cn)) ((j mod (Rn * Cn)) / Cn) (j mod Cn)).
  { unfold space_index. fold Rn Cn.
    pose proof (Nat.div_mod_eq j (Rn * Cn)) as H1.
    pose proof (Nat.div_mod_eq (j mod (Rn * Cn)) Cn) as H2.
    assert (H3 : ((j mod (Rn * Cn)) mod Cn = j mod Cn)%nat).
    { rewrite (Nat.mul_comm Rn Cn). rewrite Nat.Div0.mod_mul_r.
      rewrite (Nat.mul_comm Cn), Nat.Div0.mod_add. apply Nat.Div0.mod_mod. }
    rewrite H3 in H2. lia. }
  split; [exact Hside |]. split; [exact Hrow |]. split; [exact Hcol |].
  split; [exact Hidx |].
  pose proof (constructor_lookup options _ _ _ Hside Hrow Hcol) as Hfw.
  cbv zeta in Hfw. fold lot in Hfw. rewrite <- Hidx in Hfw. congruence.
Qed.

(** X4.  The spaces of a constructed lot are stored side by side, row by
    row, column by column: the space of side [s], row [r] and column
    [c] is at index [s * rows * columns + r * columns + c], it records
    these three numbers, the position and facing computed from them, and
    it is free; every entry of [spaces] is such a space. *)
Theorem spaces_are_laid_out_row_major (options : ParkingLot.Options) :
  let lot := ParkingLot.constructor options in
  (forall side row col,
      (side < 2)%nat -> (row < rows lot)%nat -> (col < columns lot)%nat ->
      spaces lot !! space_index lot side row col = Some (space_at lot side row col))
  /\ (forall j s, spaces lot !! j = Some s ->
        (side s < 2)%nat /\ (row s < rows lot)%nat /\ (col s < columns lot)%nat
        /\ j = space_index lot (side s) (row s) (col s)
        /\ s = space_at lot (side s) (row s) (col s)).
Proof.
  cbv zeta. split.
  - intros side row col. apply constructor_lookup.
  - intros j s Hj.
    destruct (constructor_lookup_inv options j s Hj) as (sd & rw & cl & H1 & H2 & H3 & H4 & H5).
    rewrite H5. cbn [side row col space_at]. rewrite <- H5. auto.
Qed.

(** X5.  The two spaces of a row and column are mirror images across the
    aisle: same x, opposite z, both at height 0, the one of side 0
    facing PI and the one of side 1 facing 0. *)
Theorem sides_mirror_each_other (options : ParkingLot.Options) (r c : nat) :
  let lot := ParkingLot.constructor options in
  (r < rows lot)%nat -> (c < columns lot)%nat ->
  exists s0 s1,
    spaces lot !! space_index lot 0 r c = Some s0
    /\ spaces lot !! space_index lot 1 r c = Some s1
    /\ THREE.x (position s0) = THREE.x (position s1)
    /\ THREE.z (position s0) = - THREE.z (position s1)
    /\ THREE.y (position s0) = 0 /\ THREE.y (position s1) = 0
    /\ rotation s0 = PI /\ rotation s1 = 0.
Proof.
  cbv zeta. intros Hr Hc.
  exists (space_at (ParkingLot.constructor options) 0 r c),
         (space_at (ParkingLot.constructor options) 1 r c).
  split; [apply constructor_lookup; [lia | exact Hr | exact Hc] |].
  split; [apply constructor_lookup; [lia | exact Hr | exact Hc] |].
  unfold space_at. cbn [position rotation Nat.eqb THREE.x THREE.y THREE.z].
  repeat split; try reflexivity. lra.
Qed.

Lemma sides_mirror_each_other_witness :
  (0 < rows lot_1x1)%nat /\ (0 < columns lot_1x1)%nat
  /\ exists s0 s1 : Space,
       spaces lot_1x1 !! space_index lot_1x1 0 0 0 = Some s0
       /\ spaces lot_1x1 !! space_index lot_1x1 1 0 0 = Some s1
       /\ THREE.x (ParkingLot.position s0) = THREE.x (ParkingLot.position s1)
       /\ THREE.z (ParkingLot.position s0) = - THREE.z (ParkingLot.position s1)
       /\ THREE.y (ParkingLot.position s0) = 0 /\ THREE.y (ParkingLot.position s1) = 0
       /\ ParkingLot.rotation s0 = PI /\ ParkingLot.rotation s1 = 0.
Proof.
  assert (Hr : (0 < rows lot_1x1)%nat) by (cbn; lia).
  assert (Hc : (0 < columns lot_1x1)%nat) by (cbn; lia).
  split; [exact Hr |]. split; [exact Hc |].
  exact (sides_mirror_each_other
           (ParkingLot.mkOptions (Some 1%nat) (Some 1%nat) (Some 3) (Some 6) (Some 8))
           0 0 Hr Hc).
Defined.

(** X6.  For positive space width and length and a non-negative aisle
    width, every space centre lies within the lot: at most
    [totalWidth / 2 - spaceWidth / 2] from the centre line in x, at most
    [totalLength / 2 - spaceLength / 2] in z, beyond the aisle, on the
    negative z side for side 0 and on the positive one for side 1. *)
Theorem spaces_lie_within_the_lot
    (options : ParkingLot.Options) (j : nat) (s : Space) :
  let lot := ParkingLot.constructor options in
  0 < spaceWidth lot -> 0 < spaceLength lot -> 0 <= aisleWidth lot ->
  spaces lot !! j = Some s ->
  Rabs (THREE.x (position s)) <= totalWidth lot / 2 - spaceWidth lot / 2
  /\ Rabs (THREE.z (position s)) <= totalLength lot / 2 - spaceLength lot / 2
  /\ aisleWidth lot / 2 + spaceLength lot / 2 <= Rabs (THREE.z (position s))
  /\ (side s = 0%nat -> THREE.z (position s) < 0)
  /\ (side s = 1%nat -> 0 < THREE.z (position s)).
Proof.
  cbv zeta. intros Hw Hl Ha Hj.
  destruct (constructor_lookup_inv options j s Hj) as (sd & rw & cl & H1 & H2 & H3 & _ & ->).
  set (lot := ParkingLot.constructor options) in *.
  assert (Htw : totalWidth lot = INR (columns lot) * spaceWidth lot) by reflexivity.
  assert (Htl : totalLength lot = INR (rows lot) * spaceLength lot * 2 + aisleWidth lot)
    by reflexivity.
  assert (Hcl : 0 <= INR cl <= INR (columns lot) - 1).
  { split; [apply pos_INR |].
    assert (H3' : (S cl <= columns lot)%nat) by lia.
    apply le_INR in H3'. rewrite S_INR in H3'. lra. }
  assert (Hrw : 0 <= INR rw <= INR (rows lot) - 1).
  { split; [apply pos_INR |].
    assert (H2' : (S rw <= rows lot)%nat) by lia.
    apply le_INR in H2'. rewrite S_INR in H2'. lra. }
  unfold space_at. cbn [position side THREE.x THREE.z]. rewrite Htw, Htl.
  set (w := spaceWidth lot) in *. set (l := spaceLength lot) in *.
  set (a := aisleWidth lot) in *.
  assert (Hx1 : 0 <= INR cl * w) by nra.
  assert (Hx2 : INR cl * w <= (INR (columns lot) - 1) * w) by nra.
  assert (Hz1 : 0 <= INR rw * l) by nra.
  assert (Hz2 : INR rw * l <= (INR (rows lot) - 1) * l) by nra.
  assert (Hsd : sd = 0%nat \/ sd = 1%nat) by lia.
  destruct Hsd as [-> | ->]; cbn [Nat.eqb].
  - split; [apply Rabs_le; lra |]. split; [apply Rabs_le; lra |].
    split; [rewrite Rabs_left by lra; lra |].
    split; [intros _; lra | discriminate].
  - split; [apply Rabs_le; lra |]. split; [apply Rabs_le; lra |].
    split; [rewrite Rabs_right by lra; lra |].
    split; [discriminate | intros _; lra].
Qed.

Lemma spaces_lie_within_the_lot_witness :
  let s := mkSpace 0 0 0 (THREE.mkVector3 0 0 (-7)) PI false in
  0 < spaceWidth lot_1x1 /\ 0 < spaceLength lot_1x1 /\ 0 <= aisleWidth lot_1x1
  /\ spaces lot_1x1 !! 0%nat = Some s
  /\ Rabs (THREE.x (ParkingLot.position s)) <= totalWidth lot_1x1 / 2 - spaceWidth lot_1x1 / 2
  /\ Rabs (THREE.z (ParkingLot.position s)) <= totalLength lot_1x1 / 2 - spaceLength lot_1x1 / 2.
Proof.
  cbv zeta.
  assert (Hw : 0 < spaceWidth lot_1x1).
  { unfold lot_1x1, ParkingLot.constructor. cbn [spaceWidth opt_spaceWidth].
    rewrite or_default_R_nonzero; lra. }
  assert (Hl : 0 < spaceLength lot_1x1).
  { unfold lot_1x1, ParkingLot.constructor. cbn [spaceLength opt_spaceLength].
    rewrite or_default_R_nonzero; lra. }
  assert (Ha : 0 <= aisleWidth lot_1x1).
  { unfold lot_1x1, ParkingLot.constructor. cbn [aisleWidth opt_aisleWidth].
    rewrite or_default_R_nonzero; lra. }
  assert (Hs : spaces lot_1x1 !! 0%nat
               = Some (mkSpace 0 0 0 (THREE.mkVector3 0 0 (-7)) PI false))
    by (rewrite lot_1x1_spaces; reflexivity).
  split; [exact Hw |]. split; [exact Hl |]. split; [exact Ha |]. split; [exact Hs |].
  destruct (spaces_lie_within_the_lot
              (ParkingLot.mkOptions (Some 1%nat) (Some 1%nat) (Some 3) (Some 6) (Some 8))
              0 _ Hw Hl Ha Hs) as (Hx & Hz & _).
  split; assumption.
Defined.

End LayoutTheorems.

(** * Occupancy and allocation *)
Section OccupancyFacts.

Import ParkingLot.

Lemma findAvailableSpace_nearest (lot : ParkingLot.t) (p : THREE.Vector3) (i : nat) :
  findAvailableSpace lot p = Some i -> nearest_free lot p i.
Proof.
  intros Hf. destruct (findAvailableSpace_inv p lot) as [cd Hinv].
  rewrite Hf in Hinv. cbn [closest_inv] in Hinv.
  destruct Hinv as (sk & Hk & Hfree & _ & Hmin & Hfirst).
  exists sk. auto.
Qed.

Lemma nearest_free_unique (lot : ParkingLot.t) (p : THREE.Vector3) (i k : nat) :
  nearest_free lot p i -> nearest_free lot p k -> i = k.
Proof.
  intros (s & Hs & Hf & Hmin & Hfirst) (s' & Hs' & Hf' & Hmin' & Hfirst').
  destruct (Nat.lt_trichotomy i k) as [Hlt | [Heq | Hgt]]; [| exact Heq |]; exfalso.
  - specialize (Hfirst' i s Hlt Hs Hf). specialize (Hmin k s' Hs' Hf'). lra.
  - specialize (Hfirst k s' Hgt Hs' Hf'). specialize (Hmin' i s Hs Hf). lra.
Qed.

Lemma nearest_free_found (lot : ParkingLot.t) (p : THREE.Vector3) (i : nat) :
  nearest_free lot p i -> findAvailableSpace lot p = Some i.
Proof.
  intros Hn. destruct (findAvailableSpace_inv p lot) as [cd Hinv].
  destruct (findAvailableSpace lot p) as [k |] eqn:Hf.
  - f_equal. apply (nearest_free_unique lot p); [| exact Hn].
    apply findAvailableSpace_nearest. exact Hf.
  - cbn [closest_inv] in Hinv. destruct Hinv as [_ Hall].
    destruct Hn as (s & Hs & Hfree & _). specialize (Hall i s Hs). congruence.
Qed.

Lemma setSpaceOccupied_lookup (lot : ParkingLot.t) (i : nat) (b : bool) (j : nat) :
  (i < List.length (spaces lot))%nat ->
  spaces (setSpaceOccupied lot (Some (LotSpace i)) b) !! j
  = if decide (i = j) then set_occupied b <$> spaces lot !! j else spaces lot !! j.
Proof.
  intros Hi. cbn [setSpaceOccupied includes].
  rewrite bool_decide_eq_true_2 by exact Hi. cbn [spaces set_spaces].
  destruct (decide (i = j)) as [-> | Hne].
  - apply list_lookup_alter_eq.
  - apply list_lookup_alter_ne. exact Hne.
Qed.

Lemma setSpaceOccupied_length (lot : ParkingLot.t) (sp : option SpaceRef) (b : bool) :
  List.length (spaces (setSpaceOccupied lot sp b)) = List.length (spaces lot).
Proof. apply layout_length, setSpaceOccupied_layout. Qed.

(** X7.  Of two calls of setSpaceOccupied on the same space the second
    overrides the first (so one call repeated changes nothing more);
    calls on two different spaces set the same flags in either order;
    occupying a free space and releasing it restores the flags. *)
Theorem setSpaceOccupied_last_call_wins :
  (forall (lot : ParkingLot.t) (sp : option SpaceRef) (a b : bool),
      setSpaceOccupied (setSpaceOccupied lot sp a) sp b = setSpaceOccupied lot sp b)
  /\ (forall (lot : ParkingLot.t) (i j : nat) (a b : bool),
         i <> j ->
         spaces (setSpaceOccupied (setSpaceOccupied lot (Some (LotSpace i)) a)
                   (Some (LotSpace j)) b)
         = spaces (setSpaceOccupied (setSpaceOccupied lot (Some (LotSpace j)) b)
                     (Some (LotSpace i)) a))
  /\ (forall (lot : ParkingLot.t) (i : nat) (s : Space),
         spaces lot !! i = Some s -> occupied s = false ->
         spaces (setSpaceOccupied (setSpaceOccupied lot (Some (LotSpace i)) true)
                   (Some (LotSpace i)) false)
         = spaces lot).
Proof.
  assert (Hover : forall (lot : ParkingLot.t) (sp : option SpaceRef) (a b : bool),
             setSpaceOccupied (setSpaceOccupied lot sp a) sp b = setSpaceOccupied lot sp b).
  { intros lot sp a b.
    destruct sp as [[i | p r] |]; try reflexivity.
    cbn [setSpaceOccupied includes].
    destruct (bool_decide (i < List.length (spaces lot))%nat) eqn:Hi.
    - cbn [spaces set_spaces]. rewrite length_alter, Hi.
      unfold set_spaces. cbn. f_equal.
      apply list_eq. intros j. destruct (decide (i = j)) as [-> | Hne].
      + rewrite !list_lookup_alter_eq. destruct (spaces lot !! j); reflexivity.
      + rewrite !list_lookup_alter_ne by exact Hne. reflexivity.
    - rewrite Hi. reflexivity. }
  split; [exact Hover |]. split.
  - intros lot i j a b Hne.
    destruct (decide (i < List.length (spaces lot))%nat) as [Hi | Hi];
      destruct (decide (j < List.length (spaces lot))%nat) as [Hj | Hj].
    + apply list_eq. intros k.
      rewrite !setSpaceOccupied_lookup
        by (rewrite ?setSpaceOccupied_length; assumption).
      destruct (decide (j = k)), (decide (i = k)); try reflexivity. congruence.
    + assert (Hj1 : forall l0, List.length (spaces l0) = List.length (spaces lot) ->
                setSpaceOccupied l0 (Some (LotSpace j)) b = l0).
      { intros l0 Hl. cbn [setSpaceOccupied includes].
        rewrite bool_decide_eq_false_2 by (rewrite Hl; exact Hj). reflexivity. }
      rewrite (Hj1 lot eq_refl), (Hj1 _ (setSpaceOccupied_length _ _ _)). reflexivity.
    + assert (Hi1 : forall l0, List.length (spaces l0) = List.length (spaces lot) ->
                setSpaceOccupied l0 (Some (LotSpace i)) a = l0).
      { intros l0 Hl. cbn [setSpaceOccupied includes].
        rewrite bool_decide_eq_false_2 by (rewrite Hl; exact Hi). reflexivity. }
      rewrite (Hi1 lot eq_refl), (Hi1 _ (setSpaceOccupied_length _ _ _)). reflexivity.
    + assert (Hi1 : setSpaceOccupied lot (Some (LotSpace i)) a = lot).
      { cbn [setSpaceOccupied includes].
        rewrite bool_decide_eq_false_2 by exact Hi. reflexivity. }
      assert (Hj1 : setSpaceOccupied lot (Some (LotSpace j)) b = lot).
      { cbn [setSpaceOccupied includes].
        rewrite bool_decide_eq_false_2 by exact Hj. reflexivity. }
      rewrite Hi1, Hj1, Hi1. reflexivity.
  - intros lot i s Hs Hfree. rewrite Hover.
    pose proof (lookup_lt_Some _ _ _ Hs) as Hi.
    apply list_eq. intros k. rewrite setSpaceOccupied_lookup by exact Hi.
    destruct (decide (i = k)) as [<- | _]; [| reflexivity].
    rewrite Hs. cbn. f_equal. destruct s. cbn in Hfree. subst. reflexivity.
Qed.

(** X8.  After a space of the lot has been occupied, findAvailableSpace
    does not return it, and it still returns any other space it
    returned before; after a space of the lot has been released,
    findAvailableSpace does not return null. *)
Theorem allocation_respects_flags
    (lot : ParkingLot.t) (p : THREE.Vector3) (i : nat) :
  (i < List.length (spaces lot))%nat ->
  findAvailableSpace (setSpaceOccupied lot (Some (LotSpace i)) true) p <> Some i
  /\ findAvailableSpace (setSpaceOccupied lot (Some (LotSpace i)) false) p <> None
  /\ (forall k, findAvailableSpace lot p = Some k -> k <> i ->
        findAvailableSpace (setSpaceOccupied lot (Some (LotSpace i)) true) p = Some k).
Proof.
  intros Hi. split; [| split].
  - intros Hf. apply findAvailableSpace_nearest in Hf as (s & Hs & Hfree & _).
    rewrite setSpaceOccupied_lookup in Hs by exact Hi.
    destruct (decide (i = i)); [| congruence].
    destruct (spaces lot !! i) as [s0 |]; cbn in Hs; [| discriminate].
    injection Hs as <-. discriminate.
  - intros Hf. destruct (findAvailableSpace_inv p (setSpaceOccupied lot (Some (LotSpace i)) false))
      as [cd Hinv].
    rewrite Hf in Hinv. cbn [closest_inv] in Hinv. destruct Hinv as [_ Hall].
    destruct (lookup_lt_is_Some_2 _ _ Hi) as [s Hs].
    specialize (Hall i (set_occupied false s)).
    rewrite setSpaceOccupied_lookup in Hall by exact Hi.
    destruct (decide (i = i)); [| congruence].
    rewrite Hs in Hall. specialize (Hall eq_refl). discriminate.
  - intros k Hf Hne. apply nearest_free_found.
    apply findAvailableSpace_nearest in Hf as (s & Hs & Hfree & Hmin & Hfirst).
    assert (Hback : forall j s', spaces (setSpaceOccupied lot (Some (LotSpace i)) true) !! j
                                 = Some s' -> occupied s' = false ->
                                 spaces lot !! j = Some s').
    { intros j s' Hj Hf'. rewrite setSpaceOccupied_lookup in Hj by exact Hi.
      destruct (decide (i = j)); [| exact Hj].
      destruct (spaces lot !! j); cbn in Hj; [| discriminate].
      injection Hj as <-. discriminate. }
    exists s. split.
    { rewrite setSpaceOccupied_lookup by exact Hi.
      destruct (decide (i = k)); [congruence | exact Hs]. }
    split; [exact Hfree |]. split.
    + intros j s' Hj Hf'. apply (Hmin j s'); auto.
    + intros j s' Hlt Hj Hf'. apply (Hfirst j s'); auto.
Qed.

Lemma allocation_respects_flags_witness :
  (0 < List.length (spaces lot_1x1))%nat
  /\ findAvailableSpace (setSpaceOccupied lot_1x1 (Some (LotSpace 0)) true)
       (THREE.mkVector3 0 0 0) <> Some 0%nat
  /\ findAvailableSpace (setSpaceOccupied lot_1x1 (Some (LotSpace 0)) false)
       (THREE.mkVector3 0 0 0) <> None.
Proof.
  assert (Hi : (0 < List.length (spaces lot_1x1))%nat)
    by (rewrite lot_1x1_spaces; cbn; lia).
  split; [exact Hi |].
  destruct (allocation_respects_flags lot_1x1 (THREE.mkVector3 0 0 0) 0 Hi) as (Ha & Hb & _).
  split; assumption.
Defined.

End OccupancyFacts.

(** * Scenarios *)
Section ScenarioFacts.

Import ScenarioManager.

Lemma last_cons {A : Type} (a d : A) (l : list A) :
  List.last (a :: l) d = List.last l a.
Proof.
  revert a d. induction l as [| b l IH]; intros a d; [reflexivity |].
  change (List.last (a :: b :: l) d) with (List.last (b :: l) d).
  rewrite (IH b d), (IH b a). reflexivity.
Qed.

Lemma setCurrentScenario_cases (m : ScenarioManager.t) (key : string) :
  Object_prototype_has key = false ->
  (known m key = true
   /\ setCurrentScenario m key = (mkManager (scenarios m) key, true))
  \/ (known m key = false /\ setCurrentScenario m key = (m, false)).
Proof.
  intros Hp. unfold setCurrentScenario, get, known.
  destruct (own (scenarios m) key); [left | right; rewrite Hp]; auto.
Qed.

(** X16.  After a run of setCurrentScenario calls with ids that are not
    names inherited from [Object.prototype], the table is unchanged and
    the current id is the last id of the run that is a key of the
    table, or the previous current id when there is none; if the
    current id was a key before, getCurrentScenario returns the
    scenario stored under the current id. *)
Theorem last_known_id_wins (m : ScenarioManager.t) (ids : list string) :
  Forall (fun key => Object_prototype_has key = false) ids ->
  scenarios (select_all m ids) = scenarios m
  /\ currentScenarioId (select_all m ids)
     = List.last (List.filter (known m) ids) (currentScenarioId m)
  /\ (known m (currentScenarioId m) = true ->
      exists s, getCurrentScenario (select_all m ids) = Some (Own s)
        /\ own (scenarios m) (currentScenarioId (select_all m ids)) = Some s).
Proof.
  intros Hall.
  assert (Hmain : scenarios (select_all m ids) = scenarios m
                  /\ currentScenarioId (select_all m ids)
                     = List.last (List.filter (known m) ids) (currentScenarioId m)).
  { revert m. induction ids as [| key ids IH]; intros m; [split; reflexivity |].
    apply Forall_cons in Hall as [Hk Hall]. specialize (IH Hall).
    cbn [select_all fold_left]. fold (select_all (fst (setCurrentScenario m key)) ids).
    destruct (setCurrentScenario_cases m key Hk) as [[Hkn ->] | [Hkn ->]]; cbn [fst].
    - destruct (IH (mkManager (scenarios m) key)) as (Hs & Hc).
      cbn [scenarios currentScenarioId] in Hs, Hc.
      split; [exact Hs |]. rewrite Hc. cbn [List.filter]. rewrite Hkn.
      rewrite last_cons. reflexivity.
    - destruct (IH m) as (Hs & Hc). split; [exact Hs |].
      rewrite Hc. cbn [List.filter]. rewrite Hkn. reflexivity. }
  destruct Hmain as (Hs & Hc). split; [exact Hs |]. split; [exact Hc |].
  intros Hcur.
  assert (Hk : known m (currentScenarioId (select_all m ids)) = true).
  { rewrite Hc.
    destruct (List.filter (known m) ids) as [| a l] eqn:Hf using rev_ind; [exact Hcur |].
    rewrite last_last.
    assert (Hin : In a (List.filter (known m) ids)) by (rewrite Hf; apply in_or_app; right; left; reflexivity).
    apply filter_In in Hin. apply Hin. }
  unfold known in Hk. unfold getCurrentScenario, get. rewrite Hs.
  destruct (own (scenarios m) (currentScenarioId (select_all m ids))) as [s |];
    [| discriminate].
  exists s. auto.
Qed.

Lemma last_known_id_wins_witness :
  Forall (fun key => ScenarioManager.Object_prototype_has key = false)
    ["weekend"; "nowhere"]%string
  /\ ScenarioManager.currentScenarioId
       (select_all ScenarioManager.constructor ["weekend"; "nowhere"]%string)
     = "weekend"%string.
Proof.
  assert (Hall : Forall (fun key => ScenarioManager.Object_prototype_has key = false)
                   ["weekend"; "nowhere"]%string).
  { repeat (apply Forall_cons; split; [reflexivity |]). apply Forall_nil_2. }
  split; [exact Hall |].
  exact (proj1 (proj2 (last_known_id_wins ScenarioManager.constructor
                         ["weekend"; "nowhere"]%string Hall))).
Defined.

Lemma own_lookup (l : list (string * Scenario)) (k : string) (s : Scenario) :
  NoDup (map fst l) -> In (k, s) l -> own l k = Some s.
Proof.
  induction l as [| [k0 s0] l IH]; intros Hnd Hin; [contradiction |].
  cbn [map fst] in Hnd. apply NoDup_cons in Hnd as [Hnot Hnd].
  cbn [own]. destruct Hin as [Heq | Hin].
  - injection Heq as -> ->. rewrite String.eqb_refl. reflexivity.
  - destruct (String.eqb k0 k) eqn:Hk.
    + apply String.eqb_eq in Hk. subst k0. exfalso. apply Hnot.
      apply list_elem_of_In. apply in_map_iff. exists (k, s). auto.
    + apply IH; assumption.
Qed.

Lemma constructor_table_ok : table_ok ScenarioManager.constructor.
Proof.
  split.
  - repeat (apply Forall_cons; split; [reflexivity |]). apply Forall_nil_2.
  - cbn. repeat (apply NoDup_cons; split; [cbn; rewrite ?elem_of_cons, ?elem_of_nil; intuition discriminate |]).
    apply NoDup_nil_2.
Qed.

(** X17.  When every scenario is stored under its own id and ids are
    unique, as in the built-in table, every entry of getScenarioList
    can be fetched and selected: getScenario on its id returns the
    scenario with that id, name and description, and setCurrentScenario
    on its id returns true and makes that scenario current. *)
Theorem listed_scenarios_can_be_selected (m : ScenarioManager.t) (e : Entry) :
  table_ok m ->
  In e (getScenarioList m) ->
  exists s,
    getScenario m (e_id e) = Some (Own s)
    /\ id s = e_id e /\ name s = e_name e /\ description s = e_description e
    /\ setCurrentScenario m (e_id e) = (mkManager (scenarios m) (e_id e), true)
    /\ getCurrentScenario (fst (setCurrentScenario m (e_id e))) = Some (Own s).
Proof.
  intros (Hkeys & Hnd) Hin.
  unfold getScenarioList in Hin. apply in_map_iff in Hin as (s & <- & Hin).
  apply in_map_iff in Hin as ([k s'] & Hs & Hin). cbn [snd] in Hs. subst s'.
  rewrite Forall_forall in Hkeys.
  assert (Hk : k = id s).
  { apply (Hkeys (k, s)). apply list_elem_of_In. exact Hin. }
  subst k. cbn [e_id e_name e_description].
  pose proof (own_lookup _ _ _ Hnd Hin) as Hown.
  exists s. unfold getScenario, setCurrentScenario, getCurrentScenario, get.
  rewrite Hown. cbn [fst scenarios currentScenarioId]. rewrite Hown.
  repeat split; reflexivity.
Qed.

Lemma listed_scenarios_can_be_selected_witness :
  let e := ScenarioManager.mkEntry "rush-hour" "Rush Hour"
             "High traffic during peak hours" in
  table_ok ScenarioManager.constructor
  /\ In e (ScenarioManager.getScenarioList ScenarioManager.constructor)
  /\ exists s,
       ScenarioManager.getScenario ScenarioManager.constructor "rush-hour"
       = Some (ScenarioManager.Own s)
       /\ ScenarioManager.id s = "rush-hour"%string.
Proof.
  cbv zeta.
  assert (Hin : In (ScenarioManager.mkEntry "rush-hour" "Rush Hour"
                      "High traffic during peak hours")
                  (ScenarioManager.getScenarioList ScenarioManager.constructor)).
  { right. left. reflexivity. }
  split; [exact constructor_table_ok |]. split; [exact Hin |].
  destruct (listed_scenarios_can_be_selected ScenarioManager.constructor _
              constructor_table_ok Hin) as (s & Hg & Hid & _).
  exists s. split; assumption.
Defined.

End ScenarioFacts.

Section ChangeScenario.

Import ParkingLot Vehicle.

(** X18.  changeScenario with an id that is not a name inherited from
    [Object.prototype] always reloads: when the id is unknown the
    manager keeps its current scenario, and in both cases the lot and
    the vehicles are rebuilt from the scenario that is then current, so
    no space is flagged and every vehicle is [moving] without a target
    at speed 0. *)
Theorem changeScenario_always_rebuilds (a : Session.t) (scenarioId : string) :
  ScenarioManager.Object_prototype_has scenarioId = false ->
  known (Session.scenarioManager a)
    (ScenarioManager.currentScenarioId (Session.scenarioManager a)) = true ->
  exists (m' : ScenarioManager.t) (s : ScenarioManager.Scenario),
    Session.changeScenario a scenarioId
    = Session.Returned
        (Session.mkSession m'
           (ParkingSimulation.changeScenario (Session.simulation a)
              (Session.to_scenario s)))
    /\ ScenarioManager.getCurrentScenario m' = Some (ScenarioManager.Own s)
    /\ (known (Session.scenarioManager a) scenarioId = true ->
        ScenarioManager.currentScenarioId m' = scenarioId)
    /\ (known (Session.scenarioManager a) scenarioId = false ->
        m' = Session.scenarioManager a)
    /\ all_free (ParkingSimulation.parkingLot
                   (ParkingSimulation.changeScenario (Session.simulation a)
                      (Session.to_scenario s)))
    /\ List.length (ParkingSimulation.vehicles
                      (ParkingSimulation.changeScenario (Session.simulation a)
                         (Session.to_scenario s)))
       = List.length (ScenarioManager.initialVehicles s)
    /\ (forall k v,
          ParkingSimulation.vehicles
            (ParkingSimulation.changeScenario (Session.simulation a)
               (Session.to_scenario s)) !! k = Some v ->
          state v = moving /\ targetSpace v = None /\ speed v = 0).
Proof.
  intros Hp Hcur.
  assert (Hfresh : forall s,
            all_free (ParkingSimulation.parkingLot
                        (ParkingSimulation.changeScenario (Session.simulation a)
                           (Session.to_scenario s)))
            /\ List.length (ParkingSimulation.vehicles
                              (ParkingSimulation.changeScenario (Session.simulation a)
                                 (Session.to_scenario s)))
               = List.length (ScenarioManager.initialVehicles s)
            /\ (forall k v,
                  ParkingSimulation.vehicles
                    (ParkingSimulation.changeScenario (Session.simulation a)
                       (Session.to_scenario s)) !! k = Some v ->
                  state v = moving /\ targetSpace v = None /\ speed v = 0)).
  { intros s. unfold ParkingSimulation.changeScenario, ParkingSimulation.loadCurrentScenario.
    cbn [ParkingSimulation.parkingLot ParkingSimulation.vehicles].
    split; [apply constructor_all_free |]. split; [apply length_map |].
    intros k v Hk. rewrite list_lookup_fmap in Hk.
    destruct (_ !! k); cbn in Hk; [| discriminate]. injection Hk as <-.
    repeat split. }
  unfold Session.changeScenario.
  destruct (setCurrentScenario_cases (Session.scenarioManager a) scenarioId Hp)
    as [[Hk ->] | [Hk ->]].
  - unfold known in Hk.
    destruct (ScenarioManager.own (ScenarioManager.scenarios (Session.scenarioManager a))
                scenarioId) as [s |] eqn:Hown; [| discriminate].
    exists (ScenarioManager.mkManager
              (ScenarioManager.scenarios (Session.scenarioManager a)) scenarioId), s.
    assert (Hget : ScenarioManager.getCurrentScenario
                     (ScenarioManager.mkManager
                        (ScenarioManager.scenarios (Session.scenarioManager a)) scenarioId)
                   = Some (ScenarioManager.Own s)).
    { unfold ScenarioManager.getCurrentScenario, ScenarioManager.get.
      cbn [ScenarioManager.scenarios ScenarioManager.currentScenarioId].
      rewrite Hown. reflexivity. }
    unfold Session.loadCurrentScenario.
    cbn [Session.scenarioManager Session.simulation]. rewrite Hget.
    split; [reflexivity |]. split; [first [exact Hget | reflexivity] |].
    split; [reflexivity |]. split; [unfold known; rewrite Hown; intros Hd; discriminate Hd |].
    apply Hfresh.
  - unfold known in Hcur.
    destruct (ScenarioManager.own (ScenarioManager.scenarios (Session.scenarioManager a))
                (ScenarioManager.currentScenarioId (Session.scenarioManager a)))
      as [s |] eqn:Hown; [| discriminate].
    exists (Session.scenarioManager a), s.
    assert (Hget : ScenarioManager.getCurrentScenario (Session.scenarioManager a)
                   = Some (ScenarioManager.Own s)).
    { unfold ScenarioManager.getCurrentScenario, ScenarioManager.get.
      rewrite Hown. reflexivity. }
    unfold Session.loadCurrentScenario.
    cbn [Session.scenarioManager Session.simulation]. rewrite Hget.
    split; [reflexivity |]. split; [first [exact Hget | reflexivity] |].
    split; [congruence |]. split; [reflexivity |].
    apply Hfresh.
Qed.

Lemma changeScenario_always_rebuilds_witness :
  ScenarioManager.Object_prototype_has "nowhere" = false
  /\ known (Session.scenarioManager default_session)
       (ScenarioManager.currentScenarioId (Session.scenarioManager default_session))
     = true
  /\ exists m' s,
       Session.changeScenario default_session "nowhere"
       = Session.Returned
           (Session.mkSession m'
              (ParkingSimulation.changeScenario (Session.simulation default_session)
                 (Session.to_scenario s)))
       /\ m' = Session.scenarioManager default_session.
Proof.
  assert (Hp : ScenarioManager.Object_prototype_has "nowhere" = false) by reflexivity.
  assert (Hk : known (Session.scenarioManager default_session)
                 (ScenarioManager.currentScenarioId
                    (Session.scenarioManager default_session)) = true) by reflexivity.
  split; [exact Hp |]. split; [exact Hk |].
  destruct (changeScenario_always_rebuilds default_session "nowhere" Hp Hk)
    as (m' & s & Heq & _ & _ & Hsame & _).
  exists m', s. split; [exact Heq |]. apply Hsame. reflexivity.
Defined.

(** X19.  setCurrentScenario accepts a name that [scenarios] only
    inherits from [Object.prototype] (it returns true and makes it
    current), although getCurrentScenario then yields no scenario;
    changeScenario with such a name throws after the vehicles have been
    dropped, and so does every later reload. *)
Theorem inherited_name_breaks_the_session (a : Session.t) (scenarioId : string) :
  ScenarioManager.Object_prototype_has scenarioId = true ->
  known (Session.scenarioManager a) scenarioId = false ->
  let m' := ScenarioManager.mkManager
              (ScenarioManager.scenarios (Session.scenarioManager a)) scenarioId in
  let sim := Session.simulation a in
  let sim' := ParkingSimulation.mkSim (ParkingSimulation.parkingLot sim) []
                (ParkingSimulation.running sim) (ParkingSimulation.elapsedTime sim)
                (ParkingSimulation.stats sim) in
  ScenarioManager.setCurrentScenario (Session.scenarioManager a) scenarioId = (m', true)
  /\ ScenarioManager.getCurrentScenario m' = Some ScenarioManager.Inherited
  /\ Session.changeScenario a scenarioId = Session.Threw (Session.mkSession m' sim')
  /\ Session.loadCurrentScenario (Session.mkSession m' sim')
     = Session.Threw (Session.mkSession m' sim').
Proof.
  intros Hp Hk. cbv zeta. unfold known in Hk.
  destruct (ScenarioManager.own (ScenarioManager.scenarios (Session.scenarioManager a))
              scenarioId) eqn:Hown; [discriminate |].
  assert (Hget : ScenarioManager.get (Session.scenarioManager a) scenarioId
                 = Some ScenarioManager.Inherited).
  { unfold ScenarioManager.get. rewrite Hown, Hp. reflexivity. }
  assert (Hcur : ScenarioManager.getCurrentScenario
                   (ScenarioManager.mkManager
                      (ScenarioManager.scenarios (Session.scenarioManager a)) scenarioId)
                 = Some ScenarioManager.Inherited).
  { unfold ScenarioManager.getCurrentScenario, ScenarioManager.get.
    cbn [ScenarioManager.scenarios ScenarioManager.currentScenarioId].
    rewrite Hown, Hp. reflexivity. }
  assert (Hset : ScenarioManager.setCurrentScenario (Session.scenarioManager a) scenarioId
                 = (ScenarioManager.mkManager
                      (ScenarioManager.scenarios (Session.scenarioManager a)) scenarioId,
                    true)).
  { unfold ScenarioManager.setCurrentScenario. rewrite Hget. reflexivity. }
  split; [exact Hset |]. split; [exact Hcur |]. split.
  - unfold Session.changeScenario. rewrite Hset. unfold Session.loadCurrentScenario.
    cbn [Session.scenarioManager Session.simulation]. rewrite Hcur. reflexivity.
  - unfold Session.loadCurrentScenario.
    cbn [Session.scenarioManager Session.simulation]. rewrite Hcur. reflexivity.
Qed.

Lemma inherited_name_breaks_the_session_witness :
  ScenarioManager.Object_prototype_has "constructor" = true
  /\ known (Session.scenarioManager default_session) "constructor" = false
  /\ fst (ScenarioManager.setCurrentScenario
            (Session.scenarioManager default_session) "constructor")
     = ScenarioManager.mkManager
         (ScenarioManager.scenarios (Session.scenarioManager default_session))
         "constructor"
  /\ snd (ScenarioManager.setCurrentScenario
            (Session.scenarioManager default_session) "constructor") = true.
Proof.
  assert (Hp : ScenarioManager.Object_prototype_has "constructor" = true) by reflexivity.
  assert (Hk : known (Session.scenarioManager default_session) "constructor" = false)
    by reflexivity.
  split; [exact Hp |]. split; [exact Hk |].
  destruct (inherited_name_breaks_the_session default_session "constructor" Hp Hk)
    as (Hset & _).
  rewrite Hset. split; reflexivity.
Defined.

End ChangeScenario.
